(** * mp3_downloader.py: a shallow embedding of the download core

    The development follows [src/mp3_downloader.py]: name sanitisation
    ([clean_name]), the command line built for one track, the line-by-line
    progress loop of [download_song] with its phase machine, speed window and
    ETA, and the orchestration of [App.run] with its rescan for missing files.

    Conventions of the embedding:
    - a Python [str] is a [string]; a character stands for a code point below
      256, on which Python's whitespace class is 9-13, 28-32, 133 and 160 and
      the decimal digits are the ten ASCII ones;
    - a Python number is an exact rational ([Q]): the decimal text matched by
      the regular expressions is read without rounding; the module [Binary64]
      has the arithmetic of the progress loop on binary64 numbers, with their
      rounding, infinities and NaN;
    - callbacks are modelled by the list of calls made to them, in order. *)

From Stdlib Require Import String Ascii List Bool ZArith QArith Lia Lqa.
From Stdlib Require Import DecimalString.
From Stdlib Require Import Qround SpecFloat.
From stdpp Require Import gmap strings.
Import ListNotations.

Local Open Scope string_scope.

(** ** Characters and strings *)

Module Str.

Definition code (c : ascii) : nat := nat_of_ascii c.

(** [str.isspace] on one character, for code points below 256. *)
Definition is_space (c : ascii) : bool :=
  let n := code c in
  ((9 <=? n)%nat && (n <=? 13)%nat)
  || ((28 <=? n)%nat && (n <=? 32)%nat)
  || (n =? 133)%nat || (n =? 160)%nat.

(** [\d] on one character. *)
Definition is_digit (c : ascii) : bool :=
  let n := code c in (48 <=? n)%nat && (n <=? 57)%nat.

Definition is_ascii_letter (c : ascii) : bool :=
  let n := code c in
  ((65 <=? n)%nat && (n <=? 90)%nat) || ((97 <=? n)%nat && (n <=? 122)%nat).

(** [c in set], for a set of characters written as a string. *)
Fixpoint mem (c : ascii) (set : string) : bool :=
  match set with
  | EmptyString => false
  | String d rest => Ascii.eqb c d || mem c rest
  end.

(** Keep the characters on which [keep] holds. *)
Fixpoint filter (keep : ascii -> bool) (s : string) : string :=
  match s with
  | EmptyString => EmptyString
  | String c rest =>
      if keep c then String c (filter keep rest) else filter keep rest
  end.

(** [s.lstrip()] with the class [drop]. *)
Fixpoint lstrip (drop : ascii -> bool) (s : string) : string :=
  match s with
  | EmptyString => EmptyString
  | String c rest => if drop c then lstrip drop rest else s
  end.

(** [s.rstrip()] with the class [drop]. *)
Fixpoint rstrip (drop : ascii -> bool) (s : string) : string :=
  match s with
  | EmptyString => EmptyString
  | String c rest =>
      match rstrip drop rest with
      | EmptyString => if drop c then EmptyString else String c EmptyString
      | kept => String c kept
      end
  end.

Definition strip (drop : ascii -> bool) (s : string) : string :=
  rstrip drop (lstrip drop s).

(** The last character of a string, if it has one. *)
Fixpoint last (s : string) : option ascii :=
  match s with
  | EmptyString => None
  | String c EmptyString => Some c
  | String _ rest => last rest
  end.

(** [c] occurs in [s]. *)
Fixpoint occurs (c : ascii) (s : string) : Prop :=
  match s with
  | EmptyString => False
  | String d rest => c = d \/ occurs c rest
  end.

(** [p] is a prefix of [s]; on success the rest of [s] is returned. *)
Fixpoint skip_prefix (p s : string) : option string :=
  match p, s with
  | EmptyString, _ => Some s
  | String a p', String b s' =>
      if Ascii.eqb a b then skip_prefix p' s' else None
  | String _ _, EmptyString => None
  end.

(** [needle in s]. *)
Fixpoint contains (needle s : string) : bool :=
  match skip_prefix needle s with
  | Some _ => true
  | None =>
      match s with
      | EmptyString => false
      | String _ rest => contains needle rest
      end
  end.

(** The longest prefix of [s] in the class [cls], and what follows it. *)
Fixpoint span (cls : ascii -> bool) (s : string) : string * string :=
  match s with
  | EmptyString => (EmptyString, EmptyString)
  | String c rest =>
      if cls c then
        let '(run, tl) := span cls rest in (String c run, tl)
      else (EmptyString, s)
  end.

(** Every character of [s] is in the class [cls]. *)
Fixpoint all (cls : ascii -> bool) (s : string) : bool :=
  match s with
  | EmptyString => true
  | String c rest => cls c && all cls rest
  end.

End Str.

(** ** [clean_name] (lines 49-56) *)

(** The characters removed by the regular expression of line 55: the two
    angle brackets, colon, double quote, slash, backslash, bar, question mark
    and star. *)
Definition illegal_chars : string :=
  String "<" (String ">" (String ":" (String (ascii_of_nat 34)
    (String "/" (String "\" (String "|" (String "?" (String "*" EmptyString))))))))%char.

Definition dot : ascii := "."%char.
Definition hash : ascii := "#"%char.

(** [name] is [None] for Python's [None]. [not name] holds for [None] and for
    the empty string. *)
Definition clean_name (name : option string) : string :=
  match name with
  | None => "Unknown"
  | Some EmptyString => "Unknown"
  | Some s =>
      let s := Str.filter (fun c => negb (Ascii.eqb c hash)) s in
      let s := Str.filter (fun c => negb (Str.mem c illegal_chars)) s in
      Str.rstrip (fun c => Ascii.eqb c dot) (Str.strip Str.is_space s)
  end.

(** The characters the specification lists as never present in a result. *)
Definition forbidden (c : ascii) : bool :=
  Ascii.eqb c hash || Str.mem c illegal_chars.


(** ** [get_playlist_info] (lines 74-104) *)

(** One element of the [entries] array: [null], or an object whose [title]
    key may be absent or [null]. *)
Inductive entry : Type :=
  | ENull
  | EDict (title : option string).

(** What the code reads of the decoded JSON document: [data.get] of the key
    [title] (outer [None]: key absent) and of the key [entries]. *)
Record playlist_json : Type := {
  json_title : option (option string);
  json_entries : option (list entry)
}.

(** The outcome of [subprocess.run]: the interpreter is missing, or the tool
    ran; [decoded] is the result of [json.loads] on its output, [None] when it
    raises [JSONDecodeError]. *)
Inductive tool_result : Type :=
  | ToolNotFound
  | ToolExit (returncode : Z) (stdout stderr : string)
             (decoded : option playlist_json).

(** [e and e.get(title)]: the title of an entry when it is a non-empty string. *)
Definition entry_title (e : entry) : option string :=
  match e with
  | EDict (Some (String c rest)) => Some (String c rest)
  | _ => None
  end.

Fixpoint song_titles (entries : list entry) : list string :=
  match entries with
  | [] => []
  | e :: rest =>
      match entry_title e with
      | Some t => clean_name (Some t) :: song_titles rest
      | None => song_titles rest
      end
  end.

Definition is_empty (s : string) : bool :=
  match s with EmptyString => true | _ => false end.

(** [inl msg] is the [RuntimeError] raised with message [msg]. *)
Definition get_playlist_info (r : tool_result)
  : string + (string * list string) :=
  match r with
  | ToolNotFound => inl "Python or yt-dlp module not found."
  | ToolExit rc out err decoded =>
      if negb (rc =? 0)%Z || is_empty (Str.strip Str.is_space out) then
        inl (Str.strip Str.is_space
               (if is_empty err then "yt-dlp failed to fetch info" else err))
      else
        match decoded with
        | None => inl "Failed to parse playlist JSON."
        | Some data =>
            let entries := default [] (json_entries data) in
            let pl_title :=
              clean_name (default (Some "Unknown Playlist") (json_title data)) in
            inr (pl_title, song_titles entries)
        end
  end.

(** ** The command line of one track (lines 106-117) *)

Definition backslash : ascii := "\"%char.

(** The characters [re.escape] prefixes with a backslash: the punctuation
    below, the space, and tab, newline, carriage return, vertical tab and
    form feed. *)
Definition re_special : string :=
  "()[]{}?*+-|^$\.&~# "
  ++ String (ascii_of_nat 9) (String (ascii_of_nat 10) (String (ascii_of_nat 13)
       (String (ascii_of_nat 11) (String (ascii_of_nat 12) EmptyString)))).

Fixpoint re_escape (s : string) : string :=
  match s with
  | EmptyString => EmptyString
  | String c rest =>
      if Str.mem c re_special
      then String backslash (String c (re_escape rest))
      else String c (re_escape rest)
  end.

(** The characters with a meaning of their own in a regular expression of
    Python's [re] module when they stand unescaped. *)
Definition re_meta : string := ".^$*+?{}[]\|()".

(** How [re] reads a pattern made of literal items only: an ordinary
    character denotes itself, and a backslash before a character that is
    neither an ASCII letter nor a digit denotes that character. The result is
    the one string such a pattern matches; [None] when an item of the pattern
    is not a literal (a metacharacter, a class or group escape, a dangling
    backslash). *)
Fixpoint literal_of (pattern : string) : option string :=
  match pattern with
  | EmptyString => Some EmptyString
  | String c rest =>
      if Ascii.eqb c backslash then
        match rest with
        | EmptyString => None
        | String d rest' =>
            if Str.is_digit d || Str.is_ascii_letter d then None
            else option_map (String d) (literal_of rest')
        end
      else if Str.mem c re_meta then None
      else option_map (String c) (literal_of rest)
  end.

Definition PLAYLIST_URL : string :=
  "https://music.youtube.com/playlist?list=PLdcNZLpAI8easW7k-5luDy3j4LauXpbx-&si=aV6ovGfbLpF4tCw-".

(** Stands for [sys.executable]. *)
Definition sys_executable : string := "python".

(** [str(playlist_dir / name)]. *)
Definition path_join (dir name : string) : string := dir ++ "/" ++ name.

Definition download_cmd (song playlist_dir : string) : list string :=
  let safe_song := re_escape song in
  [ sys_executable; "-m"; "yt_dlp"; PLAYLIST_URL;
    "--newline";
    "--extract-audio"; "--audio-format"; "mp3";
    "--audio-quality"; "0";
    "--match-title"; safe_song;
    "-o"; path_join playlist_dir "%(title)s.%(ext)s";
    "--encoding"; "utf-8" ].

(** The value that follows the option [flag] on a command line. *)
Fixpoint option_value (flag : string) (argv : list string) : option string :=
  match argv with
  | [] => None
  | a :: rest =>
      if String.eqb a flag
      then match rest with v :: _ => Some v | [] => None end
      else option_value flag rest
  end.

(** The title filter handed to the tool for the track whose title in the
    playlist document is [raw]: [run] passes the element of [song_titles]
    computed from it to [download_song]. *)
Definition title_filter (raw playlist_dir : string) : option string :=
  match song_titles [EDict (Some raw)] with
  | song :: _ => option_value "--match-title" (download_cmd song playlist_dir)
  | [] => None
  end.

(** ** Numbers read from the tool's output *)

Local Open Scope Q_scope.

Definition digit_value (c : ascii) : Z := Z.of_nat (Str.code c) - 48.

(** The value of a run of digits, most significant first. *)
Fixpoint digits_value (acc : Z) (s : string) : Z :=
  match s with
  | EmptyString => acc
  | String c rest => digits_value (10 * acc + digit_value c) rest
  end.

Fixpoint pow10 (n : nat) : positive :=
  match n with
  | O => 1%positive
  | S k => (10 * pow10 k)%positive
  end.

(** [float(text)] for a text made of digits and dots, as the groups of the
    regular expressions are: an integer part, then at most one dot and a
    fractional part, with a digit somewhere. [None] is [ValueError]. *)
Definition parse_float (text : string) : option Q :=
  let '(int_part, rest) := Str.span Str.is_digit text in
  match rest with
  | EmptyString =>
      if is_empty int_part then None
      else Some (inject_Z (digits_value 0 int_part))
  | String c after =>
      if Ascii.eqb c dot then
        let '(frac_part, rest') := Str.span Str.is_digit after in
        if negb (is_empty rest') then None
        else if is_empty int_part && is_empty frac_part then None
        else Some (Qmake (digits_value 0 (int_part ++ frac_part)%string)
                         (pow10 (String.length frac_part)))
      else None
  end.

Definition SIZE_MULT : gmap string Z :=
  {[ "KiB"%string := 1024%Z;
     "MiB"%string := (1024 ^ 2)%Z;
     "GiB"%string := (1024 ^ 3)%Z ]}.

(** [SIZE_MULT.get(unit, 1024**2)]. *)
Definition size_mult (unit : string) : Q :=
  inject_Z (default (1024 ^ 2)%Z (SIZE_MULT !! unit)).

(** [float(m.group(1)) * SIZE_MULT.get(m.group(2), 1024**2)]. *)
Definition scaled (m : string * string) : option Q :=
  match parse_float (fst m) with
  | Some v => Some (v * size_mult (snd m))
  | None => None
  end.

Definition Qgtb (a b : Q) : bool := negb (Qle_bool a b).

(** Python's truth value of a number. *)
Definition truthy (x : Q) : bool := negb (Qeq_bool x 0).

Definition Qsum (l : list Q) : Q := fold_right Qplus 0 l.

(** ** The three regular expressions of the loop (lines 171-173) *)

Module Re.

(** [re.search]: the match at the leftmost position that has one. *)
Fixpoint search {A} (match_at : string -> option A) (s : string) : option A :=
  match match_at s with
  | Some m => Some m
  | None =>
      match s with
      | EmptyString => None
      | String _ rest => search match_at rest
      end
  end.

Definition digit_or_dot (c : ascii) : bool :=
  Str.is_digit c || Ascii.eqb c dot.

(** [(KiB|MiB|GiB)] at the head of [s]. *)
Definition unit_at (s : string) : option (string * string) :=
  match Str.skip_prefix "KiB" s with
  | Some rest => Some ("KiB"%string, rest)
  | None =>
      match Str.skip_prefix "MiB" s with
      | Some rest => Some ("MiB"%string, rest)
      | None =>
          match Str.skip_prefix "GiB" s with
          | Some rest => Some ("GiB"%string, rest)
          | None => None
          end
      end
  end.

(** [([\d.]+)\s*(KiB|MiB|GiB)] at the head of [s]: the two groups and the
    rest. Every repetition is greedy and none can give a character back:
    the character after a maximal run is outside the class, and the item
    that follows cannot start with a character of the class. *)
Definition number_unit_at (s : string) : option (string * string * string) :=
  let '(num, r) := Str.span digit_or_dot s in
  if is_empty num then None
  else
    let '(_, r) := Str.span Str.is_space r in
    match unit_at r with
    | Some (u, rest) => Some (num, u, rest)
    | None => None
    end.

(** [of\s+~?([\d.]+)\s*(KiB|MiB|GiB)] at the head of [s]. *)
Definition size_at (s : string) : option (string * string) :=
  match Str.skip_prefix "of" s with
  | None => None
  | Some r =>
      let '(ws, r) := Str.span Str.is_space r in
      if is_empty ws then None
      else
        let r := match Str.skip_prefix "~" r with Some r' => r' | None => r end in
        match number_unit_at r with
        | Some (num, u, _) => Some (num, u)
        | None => None
        end
  end.

(** [(\d+(?:\.\d+)?)%] at the head of [s]: group 1. *)
Definition done_at (s : string) : option string :=
  let '(int_part, r) := Str.span Str.is_digit s in
  if is_empty int_part then None
  else
    match r with
    | EmptyString => None
    | String c after =>
        if Ascii.eqb c "%"%char then Some int_part
        else if Ascii.eqb c dot then
          let '(frac_part, r') := Str.span Str.is_digit after in
          if is_empty frac_part then None
          else
            match Str.skip_prefix "%" r' with
            | Some _ => Some (int_part ++ "." ++ frac_part)%string
            | None => None
            end
        else None
    end.

(** [at\s+([\d\.]+)\s*(KiB|MiB|GiB)/s] at the head of [s]. *)
Definition speed_at (s : string) : option (string * string) :=
  match Str.skip_prefix "at" s with
  | None => None
  | Some r =>
      let '(ws, r) := Str.span Str.is_space r in
      if is_empty ws then None
      else
        match number_unit_at r with
        | Some (num, u, rest) =>
            match Str.skip_prefix "/s" rest with
            | Some _ => Some (num, u)
            | None => None
            end
        | None => None
        end
  end.

End Re.

(** ** [download_song] (lines 106-241) *)

(** A call of one of the two callbacks: [stage_cb(text, tag)] or
    [progress_cb(song, pct, downloaded, total_bytes, avg_speed, eta)]. *)
Inductive event : Type :=
  | Stage (text tag : string)
  | Progress (song : string) (pct downloaded : Q) (total : option Q)
             (avg_speed eta : Q).

Inductive Phase : Type := Banner | Song | Merge.

(** The local variables of the loop. *)
Record session : Type := {
  total_bytes : option Q;
  last_pct : option Q;
  speed_samples : list Q;
  saw_progress : bool;
  phase : Phase
}.

Definition initial : session :=
  {| total_bytes := None; last_pct := None; speed_samples := [];
     saw_progress := false; phase := Banner |}.

Definition marker : string := "has already been downloaded".

(** [if pct > 100: pct = 100]. *)
Definition clamp (pct : Q) : Q := if Qgtb pct 100 then 100 else pct.

(** [float(done.group(1))], with [0.0] on [ValueError]. *)
Definition pct_of (text : string) : Q :=
  clamp (default 0 (parse_float text)).

(** [total_bytes * (pct / 100) if total_bytes else 0]. *)
Definition downloaded_of (total : option Q) (pct : Q) : Q :=
  match total with
  | Some t => if truthy t then t * (pct / 100) else 0
  | None => 0
  end.

(** [total_bytes - downloaded if total_bytes else None]. *)
Definition remaining_of (total : option Q) (downloaded : Q) : option Q :=
  match total with
  | Some t => if truthy t then Some (t - downloaded) else None
  | None => None
  end.

(** Lines 195-201: the new phase and the stage calls made. *)
Definition advance (pct : Q) (ph : Phase) : Phase * list event :=
  let '(ph, ev1) :=
    match ph with
    | Banner =>
        if Qgtb pct 2 then (Song, [Stage "Downloading song" "download"])
        else (ph, [])
    | _ => (ph, [])
    end in
  let '(ph, ev2) :=
    match ph with
    | Song =>
        if Qgtb pct 98 then (Merge, [Stage "Merging everything" "merge"])
        else (ph, [])
    | _ => (ph, [])
    end in
  (ph, (ev1 ++ ev2)%list).

(** [speed_samples.append(spd)], then [pop(0)] above ten samples. *)
Definition push_sample (samples : list Q) (spd : Q) : list Q :=
  let samples := (samples ++ [spd])%list in
  if (10 <? length samples)%nat then tl samples else samples.

Definition average (samples : list Q) : Q :=
  Qsum samples / inject_Z (Z.of_nat (length samples)).

(** Lines 203-212: the window and the average speed after the line. *)
Definition smooth (samples : list Q) (speed : option (string * string))
  : list Q * Q :=
  match speed with
  | Some m =>
      match scaled m with
      | Some spd =>
          let samples := push_sample samples spd in (samples, average samples)
      | None => (samples, 0)
      end
  | None => (samples, 0)
  end.

(** Line 215. *)
Definition eta_of (remaining : option Q) (avg_speed : Q) : Q :=
  match remaining with
  | Some r =>
      if truthy avg_speed && Qgtb avg_speed 0 && truthy r
      then r / avg_speed else 0
  | None => 0
  end.

(** [pct != last_pct]. *)
Definition differs (pct : Q) (last : option Q) : bool :=
  match last with
  | Some p => negb (Qeq_bool pct p)
  | None => true
  end.

(** The body of the loop for one non-empty line (lines 164-220). *)
Definition process_line (song : string) (st : session) (line : string)
  : session * list event :=
  if Str.contains marker line then
    ({| total_bytes := total_bytes st; last_pct := last_pct st;
        speed_samples := speed_samples st; saw_progress := true;
        phase := phase st |},
     [Progress song 100 0 (Some 0) 0 0; Stage "Already downloaded" "final"])
  else
    let size := Re.search Re.size_at line in
    let done := Re.search Re.done_at line in
    let speed := Re.search Re.speed_at line in
    let total :=
      match size with
      | Some m =>
          match scaled m with Some b => Some b | None => total_bytes st end
      | None => total_bytes st
      end in
    match done with
    | None =>
        ({| total_bytes := total; last_pct := last_pct st;
            speed_samples := speed_samples st;
            saw_progress := saw_progress st; phase := phase st |}, [])
    | Some text =>
        let pct := pct_of text in
        let downloaded := downloaded_of total pct in
        let remaining := remaining_of total downloaded in
        let '(ph, stages) := advance pct (phase st) in
        let '(samples, avg_speed) := smooth (speed_samples st) speed in
        let eta := eta_of remaining avg_speed in
        if differs pct (last_pct st) then
          ({| total_bytes := total; last_pct := Some pct;
              speed_samples := samples; saw_progress := true; phase := ph |},
           (stages ++ [Progress song pct downloaded total avg_speed eta])%list)
        else
          ({| total_bytes := total; last_pct := last_pct st;
              speed_samples := samples; saw_progress := true; phase := ph |},
           stages)
    end.

(** One turn of the loop that does not leave it: [readline] gave a line, or
    gave nothing while the process was still alive ([continue]). *)
Inductive read : Type :=
  | Line (text : string)
  | Idle.

Definition step (song : string) (st : session) (r : read)
  : session * list event :=
  match r with
  | Line text => process_line song st text
  | Idle => (st, [])
  end.

(** The same turns one by one: the state after each and the calls made
    during it. *)
Fixpoint steps (song : string) (st : session) (rs : list read)
  : list (session * list event) :=
  match rs with
  | [] => []
  | r :: rest =>
      let '(st', evs) := step song st r in
      (st', evs) :: steps song st' rest
  end.

(** [stop_check_cb and stop_check_cb()] at the top of turn [turn]: the
    callback is given by its answers, turn by turn. *)
Definition stop_requested (stop_check_cb : option (nat -> bool)) (turn : nat)
  : bool :=
  match stop_check_cb with
  | Some answer => answer turn
  | None => false
  end.

(** The loop over the reads [rs] that do not leave it, from turn [turn] on.
    The boolean tells whether the loop was left by the stop check (line 153);
    otherwise all of [rs] was processed and the next read leaves the loop. *)
Fixpoint read_loop (song : string) (stop_check_cb : option (nat -> bool))
    (turn : nat) (st : session) (rs : list read)
  : bool * session * list event :=
  if stop_requested stop_check_cb turn then (true, st, [])
  else
    match rs with
    | [] => (false, st, [])
    | r :: rest =>
        let '(st', evs) := step song st r in
        let '(stopped, st'', evs') :=
          read_loop song stop_check_cb (S turn) st' rest in
        (stopped, st'', (evs ++ evs')%list)
    end.

(** How the loop is left when the stop check does not leave it: [readline]
    gave nothing and [poll] gave the exit code [rc]; or [OSError] or
    [ValueError] was raised by the read, after which the cleanup leaves
    [proc.returncode] at [rc] ([None] when the process was killed without
    being waited for). *)
Inductive ending : Type :=
  | Exited (rc : Z)
  | Fault (rc : option Z).

Definition returncode (e : ending) : option Z :=
  match e with
  | Exited rc => Some rc
  | Fault rc => rc
  end.

(** A finite run of the subprocess, as the loop observes it when it is not
    stopped. A process that never ends, with the stop check never answering
    true, has no such run: the loop does not return then. *)
Record process : Type := {
  output : list read;
  how_ended : ending
}.

(** The outcome of [subprocess.Popen]: an exception with its text, or a
    process. *)
Inductive launch : Type :=
  | LaunchError (msg : string)
  | Started (p : process).

Definition announce : list event :=
  [ Stage "Starting" "start";
    Stage "Fetching song details" "info";
    Stage "Fetching artist details" "info";
    Stage "Fetching album details" "info" ].

(** Lines 234-241. *)
Definition conclude (ret : option Z) (st : session) : bool * list event :=
  match ret with
  | Some 0%Z =>
      if saw_progress st then (true, [Stage "Finalizing" "final"])
      else (false, [Stage "Download failed or interrupted" "error"])
  | _ => (false, [Stage "Download failed or interrupted" "error"])
  end.

(** [popen] is the behaviour of [subprocess.Popen] on a command line. The
    result is the returned boolean and the calls made to the two callbacks,
    in order. *)
Definition download_song (song playlist_dir : string)
    (popen : list string -> launch) (stop_check_cb : option (nat -> bool))
  : bool * list event :=
  match popen (download_cmd song playlist_dir) with
  | LaunchError msg =>
      (false, (announce ++ [Stage ("Launch error: " ++ msg) "error"])%list)
  | Started p =>
      let '(stopped, st, evs) :=
        read_loop song stop_check_cb 0 initial (output p) in
      let evs :=
        (announce ++ [Stage "Downloading banner" "download"] ++ evs)%list in
      if stopped then (false, evs)
      else
        let '(ok, last) := conclude (returncode (how_ended p)) st in
        (ok, (evs ++ last)%list)
  end.

(** ** The numbers of the loop in binary64 (lines 175-220) *)

(** Python's [float] is the binary64 format of IEEE 754: a value is rounded
    to the nearest number of the format (ties to the even mantissa), a value
    beyond the range becomes an infinity, and an operation without a value,
    such as the difference of two infinities, gives a NaN. [process_line]
    takes the numbers as exact values; this module has the same lines on
    binary64 numbers, as the Standard Library specifies them, for the lines
    on which the two differ. An [int] that meets a [float] is converted
    first: 0, 100, the multipliers and the length of the window are numbers
    of the format, so they are held as such. *)
Module Binary64.

Definition prec : Z := 53.
Definition emax : Z := 1024.

Definition zero : spec_float := S754_zero false.

(** The binary64 number nearest to a rational: its numerator divided by its
    denominator, which rounds once. *)
Definition of_Q (q : Q) : spec_float :=
  match Qnum q with
  | Z0 => zero
  | Zpos n =>
      SFdiv prec emax (S754_finite false n 0) (S754_finite false (Qden q) 0)
  | Zneg n =>
      SFdiv prec emax (S754_finite true n 0) (S754_finite false (Qden q) 0)
  end.

(** [float(text)]: the decimal value of the text, rounded; [None] is
    [ValueError]. *)
Definition float (text : string) : option spec_float :=
  option_map of_Q (parse_float text).

Definition hundred : spec_float := of_Q 100.

(** [x > y], [x >= y] and [x == y]: all false when one side is a NaN. *)
Definition gt (x y : spec_float) : bool := SFltb y x.
Definition eq (x y : spec_float) : bool := SFeqb x y.

(** The truth value of a number: false for the two zeros only. *)
Definition truthy (x : spec_float) : bool := negb (eq x zero).

(** [float(m.group(1)) * SIZE_MULT.get(m.group(2), 1024**2)]. *)
Definition scaled (m : string * string) : option spec_float :=
  match float (fst m) with
  | Some v => Some (SFmul prec emax v (of_Q (size_mult (snd m))))
  | None => None
  end.

(** [if pct > 100: pct = 100]. *)
Definition clamp (pct : spec_float) : spec_float :=
  if gt pct hundred then hundred else pct.

(** [total_bytes * (pct / 100) if total_bytes else 0]. *)
Definition downloaded_of (total : option spec_float) (pct : spec_float)
  : spec_float :=
  match total with
  | Some t =>
      if truthy t then SFmul prec emax t (SFdiv prec emax pct hundred)
      else zero
  | None => zero
  end.

(** [total_bytes - downloaded if total_bytes else None]. *)
Definition remaining_of (total : option spec_float) (downloaded : spec_float)
  : option spec_float :=
  match total with
  | Some t => if truthy t then Some (SFsub prec emax t downloaded) else None
  | None => None
  end.

(** [speed_samples.append(spd)], then [pop(0)] above ten samples. *)
Definition push_sample (samples : list spec_float) (spd : spec_float)
  : list spec_float :=
  let samples := (samples ++ [spd])%list in
  if (10 <? length samples)%nat then tl samples else samples.

(** [sum(speed_samples) / len(speed_samples)], the sum adding the samples to
    0 in order; the window is not empty when this is computed. (Python 3.12
    and later carry a correction term through the sum; a window of one
    sample gives that sample either way.) *)
Definition average (samples : list spec_float) : spec_float :=
  SFdiv prec emax (fold_left (SFadd prec emax) samples zero)
    (of_Q (inject_Z (Z.of_nat (length samples)))).

(** Lines 203-212: the window and the average speed after the line. *)
Definition smooth (samples : list spec_float) (speed : option (string * string))
  : list spec_float * spec_float :=
  match speed with
  | Some m =>
      match scaled m with
      | Some spd =>
          let samples := push_sample samples spd in (samples, average samples)
      | None => (samples, zero)
      end
  | None => (samples, zero)
  end.

(** Line 215. *)
Definition eta_of (remaining : option spec_float) (avg_speed : spec_float)
  : spec_float :=
  match remaining with
  | Some r =>
      if truthy avg_speed && gt avg_speed zero && truthy r
      then SFdiv prec emax r avg_speed else zero
  | None => zero
  end.

(** [pct != last_pct]. *)
Definition differs (pct : spec_float) (last : option spec_float) : bool :=
  match last with
  | Some p => negb (eq pct p)
  | None => true
  end.

(** The local variables of the loop that hold numbers. *)
Record session : Type := {
  total_bytes : option spec_float;
  last_pct : option spec_float;
  speed_samples : list spec_float
}.

Definition initial : session :=
  {| total_bytes := None; last_pct := None; speed_samples := [] |}.

(** The arguments of a call of [progress_cb] that follow the song. *)
Record call : Type := {
  percent : spec_float;
  downloaded : spec_float;
  total : option spec_float;
  avg_speed : spec_float;
  eta : spec_float
}.

(** The body of the loop for one non-empty line, as [process_line] has it,
    without the phase and the stage calls of lines 195-201, which take no
    part in the numbers: the variables after the line and the calls of
    [progress_cb] made. *)
Definition process_line (st : session) (line : string) : session * list call :=
  if Str.contains marker line then
    (st, [ {| percent := hundred; downloaded := zero; total := Some zero;
              avg_speed := zero; eta := zero |} ])
  else
    let size := Re.search Re.size_at line in
    let done := Re.search Re.done_at line in
    let speed := Re.search Re.speed_at line in
    let total_bytes' :=
      match size with
      | Some m =>
          match scaled m with Some b => Some b | None => total_bytes st end
      | None => total_bytes st
      end in
    match done with
    | None =>
        ({| total_bytes := total_bytes'; last_pct := last_pct st;
            speed_samples := speed_samples st |}, [])
    | Some text =>
        let pct := clamp (default zero (float text)) in
        let got := downloaded_of total_bytes' pct in
        let remaining := remaining_of total_bytes' got in
        let '(samples, avg) := smooth (speed_samples st) speed in
        if differs pct (last_pct st) then
          ({| total_bytes := total_bytes'; last_pct := Some pct;
              speed_samples := samples |},
           [ {| percent := pct; downloaded := got; total := total_bytes';
                avg_speed := avg; eta := eta_of remaining avg |} ])
        else
          ({| total_bytes := total_bytes'; last_pct := last_pct st;
              speed_samples := samples |}, [])
    end.

(** The calls of [progress_cb] made for the lines [lines], in order. *)
Fixpoint calls_during (st : session) (lines : list string) : list call :=
  match lines with
  | [] => []
  | line :: rest =>
      let '(st', calls) := process_line st line in
      (calls ++ calls_during st' rest)%list
  end.

End Binary64.

(** ** [App.run] (lines 510-613) *)

(** What [run] does to the outside: an effective call of [self.log], the
    creation of the playlist directory, a call of [download_song]. *)
Inductive action : Type :=
  | Log (text tag : string)
  | Mkdir (path : string)
  | Download (song : string).

(** The surroundings of one run. [closing] is the number of reads of
    [self.is_running], by [run] and by [log], that still see it true before
    [on_closing] clears it ([None]: the window is never closed); the flag is
    never set again. [popen n] and [stops n] are the subprocess and the
    answers of [check_stop] during the [n]-th call of [download_song].
    [listing] is what [glob] yields in the playlist directory at the rescan,
    [None] when it raises [OSError]. *)
Record env : Type := {
  tool : tool_result;
  BASE_DIR : string;
  closing : option nat;
  mkdir_error : option string;
  popen : nat -> list string -> launch;
  stops : nat -> nat -> bool;
  listing : option (list string)
}.

Record world : Type := {
  clock : nat;
  calls : nat;
  failed_songs : list string;
  trace : list action
}.

Definition start_world : world :=
  {| clock := 0; calls := 0; failed_songs := []; trace := [] |}.

(** A computation that reads the surroundings and updates the world. *)
Definition M (A : Type) : Type := env -> world -> A * world.

Definition ret {A} (a : A) : M A := fun _ w => (a, w).

Definition bind {A B} (m : M A) (k : A -> M B) : M B :=
  fun e w => let '(a, w') := m e w in k a e w'.

Notation "x <- m ;; k" := (bind m (fun x => k))
  (at level 100, m at next level, right associativity).
Notation "m ;;; k" := (bind m (fun _ => k))
  (at level 100, right associativity).

Definition ask : M env := fun e w => (e, w).

(** One more read of the flag has been made. *)
Definition tick (w : world) : world :=
  {| clock := S (clock w); calls := calls w;
     failed_songs := failed_songs w; trace := trace w |}.

Definition push (a : action) (w : world) : world :=
  {| clock := clock w; calls := calls w;
     failed_songs := failed_songs w; trace := (trace w ++ [a])%list |}.

Definition next_call (w : world) : world :=
  {| clock := clock w; calls := S (calls w);
     failed_songs := failed_songs w; trace := trace w |}.

Definition emit (a : action) : M unit := fun _ w => (tt, push a w).

(** The value of [self.is_running] at its [n]-th read. *)
Definition still_open (e : env) (n : nat) : bool :=
  match closing e with
  | None => true
  | Some k => (n <? k)%nat
  end.

(** One read of [self.is_running]. *)
Definition is_running : M bool :=
  fun e w => (still_open e (clock w), tick w).

(** [self.log(text, tag)]: nothing once the window is closed. *)
Definition log (text tag : string) : M unit :=
  alive <- is_running ;;
  if alive then emit (Log text tag) else ret tt.

(** [download_song(song, playlist_dir, progress_cb, stage_cb, self.check_stop)]. *)
Definition call_download (song playlist_dir : string) : M bool :=
  fun e w =>
    let n := calls w in
    let ok :=
      fst (download_song song playlist_dir (popen e n)
             (Some (stops e n))) in
    (ok, push (Download song) (next_call w)).

Definition note_failed (song : string) : M unit :=
  fun _ w =>
    (tt, {| clock := clock w; calls := calls w;
            failed_songs := (failed_songs w ++ [song])%list;
            trace := trace w |}).

(** The first pass (lines 533-578), without the timing and the widgets. *)
Fixpoint first_pass (playlist_dir : string) (songs : list string) : M unit :=
  match songs with
  | [] => ret tt
  | song :: rest =>
      alive <- is_running ;;
      if negb alive then ret tt
      else
        log song "song" ;;;
        ok <- call_download song playlist_dir ;;
        (if ok then ret tt else note_failed song) ;;;
        (if ok then log ("Finished " ++ song) "done" else ret tt) ;;;
        first_pass playlist_dir rest
  end.

(** [Path.stem]: the name without its last suffix; a dot that starts or ends
    the name starts no suffix. *)
Fixpoint last_dot (s : string) (pos : nat) : option nat :=
  match s with
  | EmptyString => None
  | String c rest =>
      match last_dot rest (S pos) with
      | Some i => Some i
      | None => if Ascii.eqb c dot then Some pos else None
      end
  end.

Definition stem (name : string) : string :=
  match last_dot name 0 with
  | Some i =>
      if (0 <? i)%nat && (i <? String.length name - 1)%nat
      then substring 0 i name else name
  | None => name
  end.

(** A name matched by the pattern [*.mp3]. *)
Definition is_mp3 (name : string) : bool :=
  let n := String.length name in
  (4 <=? n)%nat && String.eqb (substring (n - 4) 4 name) ".mp3".

(** Lines 585-588. *)
Definition existing_files (listing : option (list string)) : gset string :=
  match listing with
  | Some names => list_to_set (map stem (List.filter is_mp3 names))
  | None => ∅
  end.

(** Line 590. *)
Definition missing_songs (songs : list string) (existing : gset string)
  : list string :=
  List.filter (fun s => bool_decide (s ∉ existing)) songs.

(** The retry loop (lines 596-601): the songs appended to [still_missing]. *)
Fixpoint retry_pass (playlist_dir : string) (missing : list string)
  : M (list string) :=
  match missing with
  | [] => ret []
  | song :: rest =>
      alive <- is_running ;;
      if negb alive then ret []
      else
        log ("Retrying " ++ song) "retry" ;;;
        ok <- call_download song playlist_dir ;;
        still <- retry_pass playlist_dir rest ;;
        ret (if ok then still else song :: still)
  end.

Fixpoint log_each (prefix : string) (l : list string) : M unit :=
  match l with
  | [] => ret tt
  | s :: rest => log (prefix ++ s) "warn" ;;; log_each prefix rest
  end.

Definition decimal (n : nat) : string :=
  NilZero.string_of_uint (Nat.to_uint n).

(** Lines 582-613. The ellipsis and the dash of the messages are written in
    ASCII. *)
Definition reconcile (playlist_dir : string) (songs : list string) : M unit :=
  log "Initial pass complete. Rescanning for missing files..." "retry" ;;;
  e <- ask ;;
  let missing := missing_songs songs (existing_files (listing e)) in
  (if negb (length missing =? 0)%nat then
     log (decimal (length missing) ++ " missing - retrying...") "retry" ;;;
     still_missing <- retry_pass playlist_dir missing ;;
     match still_missing with
     | _ :: _ =>
         log "Manual download required for:" "warn" ;;;
         log_each "  " still_missing ;;;
         log "These failed due to YouTube restrictions or network issues." "warn"
     | [] => log "All retries succeeded." "done"
     end
   else log "No missing files detected." "done") ;;;
  log "All downloads finished." "done".

Definition run : M unit :=
  e <- ask ;;
  match get_playlist_info (tool e) with
  | inl msg => log msg "error"
  | inr (playlist_name, songs) =>
      alive <- is_running ;;
      if negb alive then ret tt
      else
        match songs with
        | [] => log "Playlist is empty." "error"
        | _ :: _ =>
            let playlist_dir := path_join (BASE_DIR e) playlist_name in
            emit (Mkdir playlist_dir) ;;;
            match mkdir_error e with
            | Some err => log ("Cannot create dir: " ++ err) "error"
            | None =>
                first_pass playlist_dir songs ;;;
                alive <- is_running ;;
                if negb alive then ret tt
                else reconcile playlist_dir songs
            end
        end
  end.

(** The calls of [download_song] in a trace, in order. *)
Definition downloads (tr : list action) : list string :=
  flat_map (fun a => match a with Download s => [s] | _ => [] end) tr.

(** The lines logged under the tag [tag], in order. *)
Definition logged (tag : string) (tr : list action) : list string :=
  flat_map (fun a =>
    match a with
    | Log text t => if String.eqb t tag then [text] else []
    | _ => []
    end) tr.

(** ** Vocabulary of the statements *)

(** The percentage a turn of the loop works with: none for an idle turn, for
    a line with the marker (the percentage is not searched for then) and for
    a line without a percentage. *)
Definition line_pct (line : string) : option Q :=
  if Str.contains marker line then None
  else option_map pct_of (Re.search Re.done_at line).

(** The number read from the percentage of such a line, before the clamp of
    line 188: [float] of the matched text, [0.0] when it raises. *)
Definition parsed_pct (line : string) : option Q :=
  if Str.contains marker line then None
  else option_map (fun text => default 0 (parse_float text))
                  (Re.search Re.done_at line).

Definition read_pct (r : read) : option Q :=
  match r with
  | Line text => line_pct text
  | Idle => None
  end.

Definition has_marker (r : read) : bool :=
  match r with
  | Line text => Str.contains marker text
  | Idle => false
  end.

Definition exceeds (threshold : Q) (p : option Q) : bool :=
  match p with
  | Some q => Qgtb q threshold
  | None => false
  end.

(** One mark per turn: 1 at the first turn whose percentage exceeds
    [threshold], 0 everywhere else. *)
Fixpoint first_hit (threshold : Q) (ps : list (option Q)) : list nat :=
  match ps with
  | [] => []
  | p :: rest =>
      if exceeds threshold p then 1%nat :: map (fun _ => 0%nat) rest
      else 0%nat :: first_hit threshold rest
  end.

Definition is_stage (text tag : string) (e : event) : bool :=
  match e with
  | Stage t g => String.eqb t text && String.eqb g tag
  | Progress _ _ _ _ _ _ => false
  end.

Definition count_stage (text tag : string) (evs : list event) : nat :=
  length (List.filter (is_stage text tag) evs).

Definition to_song (evs : list event) : nat :=
  count_stage "Downloading song" "download" evs.

Definition to_merge (evs : list event) : nat :=
  count_stage "Merging everything" "merge" evs.

Definition rank (ph : Phase) : nat :=
  match ph with Banner => 0 | Song => 1 | Merge => 2 end.

(** The stage calls among some calls, in order. *)
Definition stages_of (evs : list event) : list event :=
  List.filter (fun e => match e with Stage _ _ => true | _ => false end) evs.

(** The percentages of the progress calls among some calls, in order. *)
Definition progress_pcts (evs : list event) : list Q :=
  flat_map (fun e =>
    match e with
    | Progress _ pct _ _ _ _ => [pct]
    | Stage _ _ => []
    end) evs.

(** The percentages of the progress calls made for parsed percentages, that
    is, during turns whose line has no marker. *)
Fixpoint parsed_progress (song : string) (st : session) (rs : list read)
  : list Q :=
  match rs with
  | [] => []
  | r :: rest =>
      let '(st', evs) := step song st r in
      ((if has_marker r then [] else progress_pcts evs)
       ++ parsed_progress song st' rest)%list
  end.

(** No two neighbours of the list are equal numbers. *)
Fixpoint no_repeat (l : list Q) : Prop :=
  match l with
  | a :: (b :: _) as rest => ~ a == b /\ no_repeat rest
  | _ => True
  end.

(** A stage call with the tag [error] is among the calls. *)
Definition error_reported (evs : list event) : Prop :=
  exists text, In (Stage text "error") evs.

(** What the ETA of a progress call has to satisfy, read off the arguments
    of the call: the remaining size is the total size less the downloaded
    one, and is unknown when the total size is. *)
Definition eta_sound (e : event) : Prop :=
  match e with
  | Stage _ _ => True
  | Progress _ _ downloaded total avg_speed eta =>
      0 <= eta
      /\ (avg_speed == 0 \/ total = None -> eta == 0)
      /\ (forall t, 0 < avg_speed -> total = Some t ->
            eta == (t - downloaded) / avg_speed)
  end.

(** The songs of [l] whose call of [download_song] fails, when the call for
    the first of them is the [n]-th of the run. *)
Fixpoint failing (e : env) (playlist_dir : string) (n : nat) (l : list string)
  : list string :=
  match l with
  | [] => []
  | song :: rest =>
      if fst (download_song song playlist_dir (popen e n) (Some (stops e n)))
      then failing e playlist_dir (S n) rest
      else song :: failing e playlist_dir (S n) rest
  end.

(** The names the rescan sees: none when the listing fails. *)
Definition listed (e : env) : list string := default [] (listing e).

(** [song] is the stem of one of the listed names that end in [.mp3]. *)
Definition on_disk (e : env) (song : string) : bool :=
  existsb (fun name => is_mp3 name && String.eqb (stem name) song) (listed e).

(** What is logged under the tag [warn] for the songs [still]. *)
Definition manual_notice (still : list string) : list string :=
  match still with
  | [] => []
  | _ :: _ =>
      ("Manual download required for:" :: map (String.append "  ") still
       ++ ["These failed due to YouTube restrictions or network issues."])%list
  end.

Definition is_error (e : event) : bool :=
  match e with
  | Stage _ tag => String.eqb tag "error"
  | Progress _ _ _ _ _ _ => false
  end.

Definition song_stage : event := Stage "Downloading song" "download".
Definition merge_stage : event := Stage "Merging everything" "merge".

(** The state of the loop after the turns [rs]. *)
Definition state_after (song : string) (st : session) (rs : list read)
  : session :=
  fold_left (fun s r => fst (step song s r)) rs st.

(** All the calls made during the turns [rs], in order. *)
Definition calls_during (song : string) (st : session) (rs : list read)
  : list event :=
  concat (map snd (steps song st rs)).

(** The total size, when known, is not negative. *)
Definition total_ok (st : session) : Prop :=
  match total_bytes st with
  | Some t => 0 <= t
  | None => True
  end.

(** ** Sample surroundings *)

(** A subprocess that reports progress up to the end and exits with 0. *)
Definition good_process : launch :=
  Started {| output := [ Line "[download]   1.0% of 3.00MiB at 1.00MiB/s";
                         Idle;
                         Line "[download]  50.0% of 3.00MiB at 2.00MiB/s";
                         Line "[download] 100% of 3.00MiB at 2.00MiB/s" ];
             how_ended := Exited 0 |}.

(** A subprocess that prints nothing useful and exits with 0. *)
Definition quiet_process : launch :=
  Started {| output := [Line "[youtube] Extracting URL"; Idle];
             how_ended := Exited 0 |}.

(** A playlist of three songs; the second and the fourth call of
    [download_song] see a quiet subprocess; after the first pass only the
    file of the first song is listed. *)
Definition sample_env : env :=
  {| tool :=
       ToolExit 0 "{...}" EmptyString
         (Some {| json_title := Some (Some "My: List");
                  json_entries :=
                    Some [ EDict (Some "a"); ENull; EDict (Some "b?");
                           EDict None; EDict (Some "c") ] |});
     BASE_DIR := "F:/walkman";
     closing := None;
     mkdir_error := None;
     popen := fun n _ =>
       match n with
       | 1%nat | 3%nat => quiet_process
       | _ => good_process
       end;
     stops := fun _ _ => false;
     listing := Some ["a.mp3"; "c.txt"; ".mp3"; "notes.b.mp3"] |}.

(** The same surroundings with a playlist document without entries. *)
Definition empty_env : env :=
  {| tool :=
       ToolExit 0 "{...}" EmptyString
         (Some {| json_title := Some (Some "Empty"); json_entries := Some [] |});
     BASE_DIR := "F:/walkman";
     closing := None;
     mkdir_error := None;
     popen := fun _ _ => good_process;
     stops := fun _ _ => false;
     listing := Some [] |}.

(** The sample playlist when the window is closed during the retry pass:
    the fifteenth read of the flag is the first to see it cleared. *)
Definition closing_env : env :=
  {| tool := tool sample_env;
     BASE_DIR := BASE_DIR sample_env;
     closing := Some 14%nat;
     mkdir_error := mkdir_error sample_env;
     popen := popen sample_env;
     stops := stops sample_env;
     listing := listing sample_env |}.

(** The empty playlist when the window is closed while the playlist document
    is fetched. *)
Definition closed_empty_env : env :=
  {| tool := tool empty_env;
     BASE_DIR := BASE_DIR empty_env;
     closing := Some 0%nat;
     mkdir_error := mkdir_error empty_env;
     popen := popen empty_env;
     stops := stops empty_env;
     listing := listing empty_env |}.



(** ** [format_duration] (lines 58-72) *)

(** The placeholder returned for an unknown duration: the em dash, kept as
    the three bytes of its UTF-8 form. *)
Definition EM_DASH : string :=
  String (ascii_of_nat 226) (String (ascii_of_nat 128)
    (String (ascii_of_nat 148) EmptyString)).

(** [f"{n} {unit}{'s' if n != 1 else ''}"]. *)
Definition part (n : nat) (unit : string) : string :=
  decimal n ++ " " ++ unit ++ (if (n =? 1)%nat then EmptyString else "s").

(** [sep.join(l)]. *)
Fixpoint join (sep : string) (l : list string) : string :=
  match l with
  | [] => EmptyString
  | [x] => x
  | x :: rest => x ++ sep ++ join sep rest
  end.

(** The numbers printed for [seconds] whole seconds, each with its unit
    (lines 65-71): hours and minutes when they are not 0, seconds when they
    are not 0 or when nothing else is printed. *)
Definition duration_fields (seconds : nat) : list (nat * string) :=
  let hrs := (seconds / 3600)%nat in
  let mins := ((seconds mod 3600) / 60)%nat in
  let secs := (seconds mod 60)%nat in
  let parts :=
    ((if (hrs =? 0)%nat then [] else [(hrs, "hr")])
     ++ (if (mins =? 0)%nat then [] else [(mins, "min")]))%list in
  (parts
   ++ (if negb (secs =? 0)%nat || (length parts =? 0)%nat
       then [(secs, "sec")] else []))%list.

(** [seconds] is [None] for Python's [None]; every rational is finite, and
    [int] of a positive number is its floor. *)
Definition format_duration (seconds : option Q) : string :=
  match seconds with
  | None => EM_DASH
  | Some s =>
      if Qle_bool s 0 then EM_DASH
      else
        join " " (map (fun f => part (fst f) (snd f))
                      (duration_fields (Z.to_nat (Qfloor s))))
  end.

(** The length in seconds of one unit of [duration_fields]. *)
Definition unit_seconds (unit : string) : nat :=
  if String.eqb unit "hr" then 3600
  else if String.eqb unit "min" then 60
  else 1.

Definition fields_total (fields : list (nat * string)) : nat :=
  fold_right (fun f acc => (fst f * unit_seconds (snd f) + acc)%nat) 0%nat fields.

(** ** The status badge (lines 41-45 and 413-420) *)

Definition STATUS_TEXT : gmap string (option string) :=
  {[ "start" := Some "Downloading";
     "info" := None;
     "download" := Some "Downloading";
     "merge" := Some "Merging";
     "final" := Some "Finished";
     "done" := Some "Finished";
     "error" := Some "Error";
     "retry" := Some "Retrying";
     "warn" := Some "Warning" ]}.

(** [set_status(tag)] while the window is open: the text of the badge after
    the call, when it was [badge] before. [STATUS_TEXT.get(tag)] is [None]
    for an absent tag as for the tag mapped to [None]. *)
Definition set_status (badge tag : string) : string :=
  match default None (STATUS_TEXT !! tag) with
  | Some text => if is_empty text then badge else text
  | None => badge
  end.

(** The tags of the stage calls among some calls, in order. *)
Definition stage_tags (evs : list event) : list string :=
  flat_map (fun e =>
    match e with
    | Stage _ tag => [tag]
    | Progress _ _ _ _ _ _ => []
    end) evs.

(** The badge after the stage calls [evs] went through [self.log], which
    calls [set_status] with the tag of each. *)
Definition badge_after (badge : string) (evs : list event) : string :=
  fold_left set_status (stage_tags evs) badge.

(** ** Further vocabulary *)

(** The first character of a string, if it has one. *)
Definition first_char (s : string) : option ascii :=
  match s with
  | EmptyString => None
  | String c _ => Some c
  end.

(** [s] is [t] with some characters left out. *)
Fixpoint subsequence (s t : string) : Prop :=
  match t with
  | EmptyString => s = EmptyString
  | String d t' =>
      subsequence s t'
      \/ match s with
         | EmptyString => False
         | String c s' => c = d /\ subsequence s' t'
         end
  end.

(** The line has the marker or a percentage: the two things that set
    [saw_progress]. *)
Definition shows_progress (r : read) : bool :=
  match r with
  | Line text =>
      Str.contains marker text
      || match Re.search Re.done_at text with Some _ => true | None => false end
  | Idle => false
  end.

(** What a progress call has to satisfy besides its ETA. *)
Definition fields_in_range (e : event) : Prop :=
  match e with
  | Stage _ _ => True
  | Progress _ pct downloaded total avg_speed _ =>
      0 <= pct /\ pct <= 100
      /\ 0 <= downloaded
      /\ match total with Some t => downloaded <= t | None => downloaded == 0 end
      /\ 0 <= avg_speed
  end.

(** The window holds at most ten samples, none negative. *)
Definition window_ok (st : session) : Prop :=
  (length (speed_samples st) <= 10)%nat
  /\ Forall (fun x => 0 <= x) (speed_samples st).

(** The titles of the entries that have one, in order. *)
Fixpoint titled (entries : list entry) : list string :=
  match entries with
  | [] => []
  | e :: rest =>
      match entry_title e with
      | Some t => t :: titled rest
      | None => titled rest
      end
  end.

(** A name [clean_name] has nothing to remove from. *)
Definition already_clean (s : string) : Prop :=
  Str.all (fun c => negb (forbidden c)) s = true
  /\ (exists c, first_char s = Some c /\ Str.is_space c = false)
  /\ (exists c, Str.last s = Some c
                /\ Str.is_space c = false /\ Ascii.eqb c dot = false).

(** A name without forbidden character and without a final dot. *)
Definition safe_name (s : string) : Prop :=
  Str.all (fun c => negb (forbidden c)) s = true /\ Str.last s <> Some dot.

(** The phase a session is in after percentages [ps], when it was in the
    phase [ph] before. *)
Definition phase_reached (ph : Phase) (ps : list (option Q)) : Phase :=
  match ph with
  | Merge => Merge
  | Song => if existsb (exceeds 98) ps then Merge else Song
  | Banner =>
      if existsb (exceeds 98) ps then Merge
      else if existsb (exceeds 2) ps then Song else Banner
  end.

(** * Properties *)

(** ** Strings *)

Lemma occurs_filter keep c s :
  Str.occurs c (Str.filter keep s) -> keep c = true /\ Str.occurs c s.
Proof.
  induction s as [|d s IH]; simpl; [tauto|].
  destruct (keep d) eqn:K; simpl.
  - intros [->|H]; [auto|]. destruct (IH H); auto.
  - intros H. destruct (IH H); auto.
Qed.

Lemma occurs_lstrip drop c s :
  Str.occurs c (Str.lstrip drop s) -> Str.occurs c s.
Proof.
  induction s as [|d s IH]; simpl; [tauto|].
  destruct (drop d); simpl; tauto.
Qed.

Lemma occurs_rstrip drop c s :
  Str.occurs c (Str.rstrip drop s) -> Str.occurs c s.
Proof.
  induction s as [|d s IH]; simpl; [tauto|].
  destruct (Str.rstrip drop s) eqn:R.
  - destruct (drop d); simpl; tauto.
  - simpl in *. tauto.
Qed.

Lemma last_rstrip drop s c :
  Str.last (Str.rstrip drop s) = Some c -> drop c = false.
Proof.
  induction s as [|d s IH]; simpl; [discriminate|].
  destruct (Str.rstrip drop s) as [|k ks] eqn:R.
  - destruct (drop d) eqn:D; simpl; [discriminate|].
    intros [= <-]. exact D.
  - simpl. exact IH.
Qed.

(** ** [clean_name] *)

(** None of the ten characters is left in a cleaned name. *)
Lemma clean_name_no_forbidden name c :
  Str.occurs c (clean_name name) -> forbidden c = false.
Proof.
  assert (U : Str.occurs c "Unknown" -> forbidden c = false).
  { simpl. intros H. repeat (destruct H as [->|H]; [reflexivity|]). destruct H. }
  destruct name as [[|a s]|]; [exact U| |exact U].
  unfold clean_name. intros H.
  apply occurs_rstrip in H. unfold Str.strip in H.
  apply occurs_rstrip, occurs_lstrip in H.
  apply occurs_filter in H as [H1 H].
  apply occurs_filter in H as [H2 _].
  unfold forbidden.
  destruct (Ascii.eqb c hash); [discriminate|].
  destruct (Str.mem c illegal_chars); [discriminate|reflexivity].
Qed.

(** A cleaned name does not end in a dot. *)
Lemma clean_name_no_trailing_dot name :
  Str.last (clean_name name) <> Some dot.
Proof.
  destruct name as [[|a s]|]; [discriminate| |discriminate].
  unfold clean_name. intros H. apply last_rstrip in H. discriminate.
Qed.

(** [None] and the empty string give the placeholder. *)
Lemma clean_name_placeholder :
  clean_name None = "Unknown" /\ clean_name (Some EmptyString) = "Unknown".
Proof. split; reflexivity. Qed.

(** C1, at the inputs where the code departs from it: a name made of
    stripped characters only is cleaned to the empty string, not to the
    placeholder, and a name whose last dot follows a space is cleaned to a
    name that ends in that space. *)
Theorem clean_name_empty_or_trailing_space :
  clean_name (Some "#") = EmptyString
  /\ clean_name (Some "?*") = EmptyString
  /\ clean_name (Some "a .") = "a "
  /\ Str.last (clean_name (Some "a .")) = Some " "%char
  /\ Str.is_space " " = true.
Proof. repeat split; reflexivity. Qed.

(** ** The title filter *)

Lemma special_not_alnum c :
  Str.mem c re_special = true ->
  Str.is_digit c || Str.is_ascii_letter c = false.
Proof.
  destruct c as [[] [] [] [] [] [] [] []]; vm_compute; congruence.
Qed.

Lemma plain_not_meta c :
  Str.mem c re_special = false ->
  Ascii.eqb c backslash = false /\ Str.mem c re_meta = false.
Proof.
  destruct c as [[] [] [] [] [] [] [] []]; vm_compute; intuition congruence.
Qed.

(** The escaped text, read as a pattern, is the literal text. *)
Lemma literal_of_re_escape s : literal_of (re_escape s) = Some s.
Proof.
  induction s as [|c s IH]; [reflexivity|].
  cbn [re_escape]. destruct (Str.mem c re_special) eqn:E.
  - cbn [literal_of]. unfold backslash at 1. rewrite Ascii.eqb_refl.
    rewrite (special_not_alnum _ E), IH. reflexivity.
  - destruct (plain_not_meta _ E) as [B M].
    cbn [literal_of]. rewrite B, M, IH. reflexivity.
Qed.

(** C3, as amended: the title filter on the command line of a track is the
    escaped form of the title [download_song] is given (the cleaned title),
    and read as a pattern it is made of literal items only and denotes
    exactly that title. *)
Theorem match_title_is_literal_song song playlist_dir :
  option_value "--match-title" (download_cmd song playlist_dir)
    = Some (re_escape song)
  /\ literal_of (re_escape song) = Some song.
Proof.
  split; [reflexivity|apply literal_of_re_escape].
Qed.

(** C3, as stated, fails for a title with a stripped character: the filter
    for the title AC/DC denotes ACDC. *)
Lemma match_title_not_raw_title :
  ~ (exists pattern,
       title_filter "AC/DC" "out" = Some pattern
       /\ literal_of pattern = Some "AC/DC").
Proof.
  intros [pattern [H1 H2]].
  vm_compute in H1. injection H1 as <-.
  vm_compute in H2. discriminate.
Qed.

(** The filter of a track is computed from its cleaned title. *)
Lemma title_filter_cleaned c raw playlist_dir :
  title_filter (String c raw) playlist_dir
    = Some (re_escape (clean_name (Some (String c raw)))).
Proof. reflexivity. Qed.

(** ** The disposition of [download_song] *)

Lemma error_reported_existsb evs :
  error_reported evs <-> existsb is_error evs = true.
Proof.
  unfold error_reported. rewrite existsb_exists. split.
  - intros [text H]. exists (Stage text "error"). split; [exact H|reflexivity].
  - intros [[text tag|] [H E]]; [|discriminate].
    simpl in E. apply String.eqb_eq in E. subst tag. exists text. exact H.
Qed.

Lemma advance_no_error pct ph :
  existsb is_error (snd (advance pct ph)) = false.
Proof.
  unfold advance.
  destruct ph; simpl; repeat (destruct (Qgtb pct _); simpl); reflexivity.
Qed.

Lemma process_line_no_error song st line :
  existsb is_error (snd (process_line song st line)) = false.
Proof.
  unfold process_line.
  destruct (Str.contains marker line); [reflexivity|].
  destruct (Re.search Re.done_at line) as [text|]; [|reflexivity].
  pose proof (advance_no_error (pct_of text) (phase st)) as A.
  destruct (advance (pct_of text) (phase st)) as [ph stages].
  destruct (smooth (speed_samples st) (Re.search Re.speed_at line))
    as [samples avg].
  simpl in A.
  destruct (differs (pct_of text) (last_pct st)); simpl; [|exact A].
  rewrite existsb_app, A. reflexivity.
Qed.

Lemma step_no_error song st r :
  existsb is_error (snd (step song st r)) = false.
Proof. destruct r; [apply process_line_no_error|reflexivity]. Qed.

Lemma read_loop_no_error song stop rs : forall turn st,
  existsb is_error (snd (read_loop song stop turn st rs)) = false.
Proof.
  induction rs as [|r rs IH]; intros turn st; simpl.
  - destruct (stop_requested stop turn); reflexivity.
  - destruct (stop_requested stop turn); [reflexivity|].
    pose proof (step_no_error song st r) as S1.
    destruct (step song st r) as [st' evs].
    specialize (IH (S turn) st').
    destruct (read_loop song stop (S turn) st' rs) as [[stopped st''] evs'].
    simpl in *. rewrite existsb_app, S1, IH. reflexivity.
Qed.

(** C2, as amended. A launch failure returns failure and reports it under
    the tag [error]. A session left by the stop check returns failure and
    reports no error. In every other session the result is success exactly
    when the exit code is zero and progress was seen, and failure exactly
    when an error stage is reported. *)
Theorem download_song_disposition song playlist_dir popen stop_check_cb :
  let r := download_song song playlist_dir popen stop_check_cb in
  match popen (download_cmd song playlist_dir) with
  | LaunchError msg =>
      fst r = false /\ In (Stage ("Launch error: " ++ msg) "error") (snd r)
  | Started p =>
      let '(stopped, st, _) :=
        read_loop song stop_check_cb 0 initial (output p) in
      if stopped then fst r = false /\ ~ error_reported (snd r)
      else
        (fst r = true <->
           returncode (how_ended p) = Some 0%Z /\ saw_progress st = true)
        /\ (fst r = false <-> error_reported (snd r))
  end.
Proof.
  unfold download_song.
  destruct (popen (download_cmd song playlist_dir)) as [msg|p]; simpl.
  - split; [reflexivity|].
    repeat (right; try (left; reflexivity)).
  - pose proof (read_loop_no_error song stop_check_cb (output p) 0 initial) as N.
    destruct (read_loop song stop_check_cb 0 initial (output p))
      as [[stopped st] evs].
    simpl in N. destruct stopped; simpl.
    + split; [reflexivity|]. rewrite error_reported_existsb. simpl.
      rewrite N. discriminate.
    + rewrite error_reported_existsb.
      unfold conclude.
      destruct (returncode (how_ended p)) as [[|q|q]|];
        try destruct (saw_progress st);
        simpl; rewrite existsb_app, N; simpl;
        repeat split; intros; try reflexivity; try discriminate;
        try (destruct H; discriminate).
Qed.

(** C2, as stated, fails when the session is left by the stop check: the
    call returns failure and no stage with the tag [error] is reported. *)
Lemma stopped_download_reports_no_error :
  let r := download_song "song" "out"
             (fun _ => Started {| output := [Line "[download]  50.0% of 3.00MiB"];
                                  how_ended := Exited 0 |})
             (Some (fun turn => (0 <? turn)%nat)) in
  ~ (fst r = false -> error_reported (snd r)).
Proof.
  intros r H. specialize (H eq_refl).
  apply error_reported_existsb in H. vm_compute in H. discriminate.
Qed.

(** The four outcomes on sample subprocesses: progress and exit code 0; no
    progress and exit code 0; progress and exit code 1; a launch failure. *)
Example download_song_outcomes :
  fst (download_song "x" "out" (fun _ => good_process) None) = true
  /\ download_song "x" "out" (fun _ => quiet_process) None
     = (false,
        announce ++ [ Stage "Downloading banner" "download";
                      Stage "Download failed or interrupted" "error" ])%list
  /\ fst (download_song "x" "out"
            (fun _ => Started {| output := [Line "[download]  10.0%"];
                                 how_ended := Exited 1 |}) None) = false
  /\ download_song "x" "out" (fun _ => LaunchError "no such file") None
     = (false, announce ++ [Stage "Launch error: no such file" "error"])%list.
Proof. repeat split; vm_compute; reflexivity. Qed.

(** ** The loop and its turns *)

(** Without a stop the loop makes every turn: it ends in the state after
    all of them, having made all their calls. *)
Lemma read_loop_unstopped song rs : forall turn st,
  read_loop song None turn st rs
  = (false, state_after song st rs, calls_during song st rs).
Proof.
  unfold calls_during.
  induction rs as [|r rs IH]; intros turn st; [reflexivity|].
  simpl. destruct (step song st r) as [st' evs] eqn:S1.
  rewrite IH. reflexivity.
Qed.

(** With a stop check the loop makes the turns of a prefix of the reads. *)
Lemma read_loop_prefix song stop rs : forall turn st,
  exists k,
    snd (read_loop song stop turn st rs) = calls_during song st (firstn k rs)
    /\ snd (fst (read_loop song stop turn st rs))
       = state_after song st (firstn k rs).
Proof.
  unfold calls_during.
  induction rs as [|r rs IH]; intros turn st.
  - exists 0%nat. simpl. destruct (stop_requested stop turn); auto.
  - simpl. destruct (stop_requested stop turn); [exists 0%nat; auto|].
    destruct (step song st r) as [st' evs] eqn:S1.
    destruct (IH (S turn) st') as [k [E1 E2]].
    destruct (read_loop song stop (S turn) st' rs) as [[stopped st''] evs'].
    exists (S k). simpl in *. rewrite S1. simpl. rewrite E1, E2. auto.
Qed.

(** ** The phase machine *)

Lemma Qgtb_true a b : Qgtb a b = true <-> b < a.
Proof.
  unfold Qgtb. rewrite negb_true_iff, <- not_true_iff_false, Qle_bool_iff.
  split; [apply Qnot_le_lt|apply Qlt_not_le].
Qed.

Lemma Qgtb_false a b : Qgtb a b = false <-> a <= b.
Proof.
  unfold Qgtb. rewrite negb_false_iff. apply Qle_bool_iff.
Qed.

Lemma above_98_above_2 p : Qgtb p 98 = true -> Qgtb p 2 = true.
Proof. rewrite !Qgtb_true. intros H. lra. Qed.

Lemma advance_cases pct ph :
  advance pct ph =
  match ph with
  | Banner =>
      if Qgtb pct 98 then (Merge, [song_stage; merge_stage])
      else if Qgtb pct 2 then (Song, [song_stage])
      else (Banner, [])
  | Song => if Qgtb pct 98 then (Merge, [merge_stage]) else (Song, [])
  | Merge => (Merge, [])
  end.
Proof.
  unfold advance. destruct ph; simpl.
  - destruct (Qgtb pct 98) eqn:B.
    + rewrite (above_98_above_2 _ B). reflexivity.
    + destruct (Qgtb pct 2); reflexivity.
  - destruct (Qgtb pct 98); reflexivity.
  - reflexivity.
Qed.

Lemma count_stage_app text tag evs evs' :
  count_stage text tag (evs ++ evs') =
  (count_stage text tag evs + count_stage text tag evs')%nat.
Proof. unfold count_stage. rewrite List.filter_app, length_app. reflexivity. Qed.

(** One turn: the phase moves as [advance] says on the percentage of the
    turn, and the transition stages made are those of [advance]. *)
Lemma step_phase song st r :
  let '(st', evs) := step song st r in
  match read_pct r with
  | Some p =>
      phase st' = fst (advance p (phase st))
      /\ to_song evs = to_song (snd (advance p (phase st)))
      /\ to_merge evs = to_merge (snd (advance p (phase st)))
      /\ stages_of evs = stages_of (snd (advance p (phase st)))
  | None =>
      phase st' = phase st /\ to_song evs = 0%nat /\ to_merge evs = 0%nat
  end.
Proof.
  destruct r as [line|]; simpl; [|auto].
  unfold process_line, line_pct.
  destruct (Str.contains marker line); [simpl; auto|].
  destruct (Re.search Re.done_at line) as [text|]; simpl; [|auto].
  destruct (advance (pct_of text) (phase st)) as [ph stages].
  destruct (smooth (speed_samples st) (Re.search Re.speed_at line))
    as [samples avg].
  destruct (differs (pct_of text) (last_pct st)); simpl; auto.
  unfold to_song, to_merge. rewrite !count_stage_app. simpl.
  unfold stages_of. rewrite List.filter_app. simpl.
  rewrite !Nat.add_0_r, app_nil_r. auto.
Qed.

Lemma hits_from song rs : forall st,
  map (fun x => to_song (snd x)) (steps song st rs) =
    match phase st with
    | Banner => first_hit 2 (map read_pct rs)
    | _ => map (fun _ => 0%nat) rs
    end
  /\ map (fun x => to_merge (snd x)) (steps song st rs) =
    match phase st with
    | Merge => map (fun _ => 0%nat) rs
    | _ => first_hit 98 (map read_pct rs)
    end.
Proof.
  induction rs as [|r rs IH]; intros st.
  - destruct (phase st); simpl; auto.
  - simpl. pose proof (step_phase song st r) as S1.
    destruct (step song st r) as [st' evs]. simpl.
    destruct (IH st') as [IH1 IH2]. rewrite IH1, IH2. clear IH IH1 IH2.
    destruct (read_pct r) as [p|]; simpl.
    + destruct S1 as (P & C1 & C2 & _). rewrite C1, C2, P.
      rewrite advance_cases.
      destruct (phase st); simpl.
      * destruct (Qgtb p 98) eqn:B; simpl.
        -- rewrite (above_98_above_2 _ B), !map_map. auto.
        -- destruct (Qgtb p 2); simpl; rewrite ?map_map; auto.
      * destruct (Qgtb p 98); simpl; rewrite ?map_map; auto.
      * auto.
    + destruct S1 as (P & C1 & C2). rewrite C1, C2, P.
      destruct (phase st); auto.
Qed.

Lemma step_rank song st r :
  (rank (phase st) <= rank (phase (fst (step song st r))))%nat.
Proof.
  pose proof (step_phase song st r) as S1.
  destruct (step song st r) as [st' evs]. simpl.
  destruct (read_pct r) as [p|].
  - destruct S1 as (-> & _). rewrite advance_cases.
    destruct (phase st); simpl;
      repeat (match goal with |- context [if ?b then _ else _] =>
                destruct b end); simpl; lia.
  - destruct S1 as (-> & _). lia.
Qed.

(** C4. In a session fed with any reads, the stage of the move to the song
    phase is made once, during the first turn whose percentage exceeds 2, and
    during no other turn; the stage of the move to the merge phase is made
    once, during the first turn whose percentage exceeds 98, and during no
    other turn; no turn moves the phase backwards; and the percentages 1, 3,
    50, 99, 99, 100 give one move of each kind. *)
Theorem phase_transitions song rs :
  map (fun x => to_song (snd x)) (steps song initial rs)
    = first_hit 2 (map read_pct rs)
  /\ map (fun x => to_merge (snd x)) (steps song initial rs)
    = first_hit 98 (map read_pct rs)
  /\ (forall st r, (rank (phase st) <= rank (phase (fst (step song st r))))%nat)
  /\ map (fun x => (phase (fst x), to_song (snd x), to_merge (snd x)))
       (steps song initial
          (map Line ["1%"; "3%"; "50%"; "99%"; "99%"; "100%"]))
     = [ (Banner, 0, 0); (Song, 1, 0); (Song, 0, 0);
         (Merge, 0, 1); (Merge, 0, 0); (Merge, 0, 0) ]%nat.
Proof.
  destruct (hits_from song rs initial) as [H1 H2].
  split; [exact H1|]. split; [exact H2|]. split; [apply step_rank|].
  vm_compute. reflexivity.
Qed.

Lemma state_after_quiet song pre : forall st,
  Forall (fun x => read_pct x = None) pre ->
  phase (state_after song st pre) = phase st.
Proof.
  induction pre as [|r pre IH]; intros st H; [reflexivity|].
  inversion H as [|? ? Hr Hpre]; subst. simpl.
  rewrite (IH _ Hpre).
  pose proof (step_phase song st r) as S1.
  destruct (step song st r) as [st' evs]. rewrite Hr in S1. tauto.
Qed.

(** C10. When the first percentage of a session exceeds 98, the turn that
    reads it makes the stage of the song phase and then the stage of the
    merge phase, and leaves the session in the merge phase. *)
Theorem first_update_above_98 song pre r p :
  Forall (fun x => read_pct x = None) pre ->
  read_pct r = Some p ->
  98 < p ->
  let st := state_after song initial pre in
  stages_of (snd (step song st r)) = [song_stage; merge_stage]
  /\ phase (fst (step song st r)) = Merge.
Proof.
  intros Hpre Hr Hp st.
  pose proof (state_after_quiet song pre initial Hpre) as B.
  fold st in B. simpl in B.
  pose proof (step_phase song st r) as S1.
  destruct (step song st r) as [st' evs]. rewrite Hr in S1.
  destruct S1 as (P & _ & _ & S1). simpl.
  rewrite S1, P, advance_cases, B.
  apply Qgtb_true in Hp. rewrite Hp. split; reflexivity.
Qed.

Lemma first_update_above_98_witness :
  let pre := [Idle; Line "[download] Destination: out/x.webm"] in
  let r := Line "[download]  99.5% of 3.00MiB at 1.00MiB/s" in
  read_pct r = Some (clamp (995 # 10))
  /\ stages_of (snd (step "x" (state_after "x" initial pre) r))
       = [song_stage; merge_stage]
  /\ phase (fst (step "x" (state_after "x" initial pre) r)) = Merge.
Proof.
  split; [reflexivity|].
  apply (first_update_above_98 "x"
           [Idle; Line "[download] Destination: out/x.webm"]
           (Line "[download]  99.5% of 3.00MiB at 1.00MiB/s")
           (clamp (995 # 10))).
  - repeat constructor.
  - reflexivity.
  - reflexivity.
Defined.

(** ** Lines without a percentage *)

(** C9, as amended. A line without the marker and without a percentage makes
    no call and leaves the speed window, the last reported percentage, the
    progress flag and the phase as they were, whatever the speed pattern
    finds in it; only the total size can change. *)
Theorem line_without_percentage_is_inert song st line :
  Str.contains marker line = false ->
  Re.search Re.done_at line = None ->
  let r := process_line song st line in
  snd r = []
  /\ speed_samples (fst r) = speed_samples st
  /\ last_pct (fst r) = last_pct st
  /\ saw_progress (fst r) = saw_progress st
  /\ phase (fst r) = phase st.
Proof.
  intros M D. unfold process_line. rewrite M, D. simpl. auto.
Qed.

Lemma line_without_percentage_is_inert_witness :
  let line := "[download] of 3.00MiB at 5.00MiB/s" in
  Re.search Re.speed_at line = Some ("5.00", "MiB")
  /\ total_bytes (fst (process_line "x" initial line)) = Some (3.00 * 1048576)
  /\ snd (process_line "x" initial line) = []
  /\ speed_samples (fst (process_line "x" initial line)) = []
  /\ last_pct (fst (process_line "x" initial line)) = None
  /\ saw_progress (fst (process_line "x" initial line)) = false
  /\ phase (fst (process_line "x" initial line)) = Banner.
Proof.
  split; [reflexivity|]. split; [reflexivity|].
  apply (line_without_percentage_is_inert "x" initial
           "[download] of 3.00MiB at 5.00MiB/s"); reflexivity.
Defined.

(** C9, as stated, fails on a line that has the marker: the line below has a
    speed pattern and no percentage, and two calls are made for it. *)
Lemma marker_line_with_speed_makes_calls :
  let line := "[download] out/Live at 5 KiB/s.mp3 has already been downloaded" in
  Re.search Re.speed_at line = Some ("5", "KiB")
  /\ Re.search Re.done_at line = None
  /\ snd (process_line "s" initial line)
     = [Progress "s" 100 0 (Some 0) 0 0; Stage "Already downloaded" "final"]
  /\ snd (process_line "s" initial line) <> [].
Proof. repeat split; try reflexivity. discriminate. Qed.

(** ** Reported percentages *)

Lemma clamp_le_100 p : clamp p <= 100.
Proof.
  unfold clamp. destruct (Qgtb p 100) eqn:G; [apply Qle_refl|].
  apply Qgtb_false. exact G.
Qed.

Lemma clamp_above p : 100 < p -> clamp p = 100.
Proof. intros H. unfold clamp. apply Qgtb_true in H. rewrite H. reflexivity. Qed.

Lemma clamp_below p : p <= 100 -> clamp p = p.
Proof. intros H. unfold clamp. apply Qgtb_false in H. rewrite H. reflexivity. Qed.

Lemma advance_no_progress pct ph : progress_pcts (snd (advance pct ph)) = [].
Proof.
  rewrite advance_cases.
  destruct ph; simpl;
    repeat (match goal with |- context [if ?b then _ else _] =>
              destruct b end); reflexivity.
Qed.

Lemma progress_pcts_app evs evs' :
  progress_pcts (evs ++ evs') = (progress_pcts evs ++ progress_pcts evs')%list.
Proof. unfold progress_pcts. apply flat_map_app. Qed.

(** One turn: which percentages are reported, and what the last reported
    percentage becomes. *)
Lemma step_progress song st r :
  let '(st', evs) := step song st r in
  progress_pcts evs =
    (if has_marker r then [100]
     else match read_pct r with
          | Some p => if differs p (last_pct st) then [p] else []
          | None => []
          end)
  /\ last_pct st' =
    match read_pct r with
    | Some p => if differs p (last_pct st) then Some p else last_pct st
    | None => last_pct st
    end.
Proof.
  destruct r as [line|]; simpl; [|auto].
  unfold process_line, line_pct.
  destruct (Str.contains marker line); [simpl; auto|].
  destruct (Re.search Re.done_at line) as [text|]; simpl; [|auto].
  pose proof (advance_no_progress (pct_of text) (phase st)) as A.
  destruct (advance (pct_of text) (phase st)) as [ph stages].
  destruct (smooth (speed_samples st) (Re.search Re.speed_at line))
    as [samples avg].
  simpl in A.
  destruct (differs (pct_of text) (last_pct st)); simpl; auto.
  rewrite progress_pcts_app, A. auto.
Qed.

Lemma read_pct_le_100 r p : read_pct r = Some p -> p <= 100.
Proof.
  destruct r as [line|]; simpl; [|discriminate].
  unfold line_pct. destruct (Str.contains marker line); [discriminate|].
  destruct (Re.search Re.done_at line); simpl; [|discriminate].
  intros [= <-]. apply clamp_le_100.
Qed.

Lemma differs_true p q : differs p (Some q) = true -> ~ q == p.
Proof.
  simpl. rewrite negb_true_iff, <- not_true_iff_false, Qeq_bool_iff.
  intros H E. apply H. symmetry. exact E.
Qed.

Lemma parsed_progress_chain song rs : forall st,
  match last_pct st with
  | Some q => no_repeat (q :: parsed_progress song st rs)
  | None => no_repeat (parsed_progress song st rs)
  end.
Proof.
  induction rs as [|r rs IH]; intros st.
  - simpl. destruct (last_pct st); exact I.
  - simpl. pose proof (step_progress song st r) as S1.
    destruct (step song st r) as [st' evs]. destruct S1 as [E L].
    specialize (IH st'). rewrite L in IH. rewrite E. clear E L.
    destruct (has_marker r) eqn:Mk.
    + assert (read_pct r = None) as N.
      { destruct r as [line|]; [|reflexivity]. simpl in *.
        unfold line_pct. rewrite Mk. reflexivity. }
      rewrite N in IH. exact IH.
    + destruct (read_pct r) as [p|]; [|exact IH].
      destruct (last_pct st) as [q|] eqn:Lq.
      * destruct (differs p (Some q)) eqn:D.
        -- simpl. split; [apply differs_true; exact D|exact IH].
        -- exact IH.
      * simpl in IH. simpl. exact IH.
Qed.

Lemma calls_during_le_100 song rs : forall st,
  Forall (fun p => p <= 100) (progress_pcts (calls_during song st rs)).
Proof.
  unfold calls_during.
  induction rs as [|r rs IH]; intros st; simpl; [constructor|].
  pose proof (step_progress song st r) as S1.
  destruct (step song st r) as [st' evs]. destruct S1 as [E _].
  simpl. rewrite progress_pcts_app, E. apply Forall_app. split; [|apply IH].
  destruct (has_marker r).
  - constructor; [apply Qle_refl|constructor].
  - destruct (read_pct r) as [p|] eqn:R; [|constructor].
    destruct (differs p (last_pct st)); constructor; [|constructor].
    exact (read_pct_le_100 _ _ R).
Qed.

(** The percentage a line is worked with is the clamped form of the number
    read from it. *)
Lemma line_pct_parsed line v :
  parsed_pct line = Some v ->
  Str.contains marker line = false /\ line_pct line = Some (clamp v).
Proof.
  unfold parsed_pct, line_pct, pct_of.
  destruct (Str.contains marker line); [discriminate|].
  destruct (Re.search Re.done_at line) as [text|]; simpl; [|discriminate].
  intros [= <-]. auto.
Qed.

(** What one line without the marker reports, by the number read from it. *)
Lemma process_line_reports song st line v :
  parsed_pct line = Some v ->
  progress_pcts (snd (process_line song st line))
  = if differs (clamp v) (last_pct st) then [clamp v] else [].
Proof.
  intros P. destruct (line_pct_parsed line v P) as [Mk L].
  pose proof (step_progress song st (Line line)) as S1.
  cbn [step has_marker read_pct] in S1.
  destruct (process_line song st line) as [st' evs].
  destruct S1 as [E _]. rewrite Mk, L in E. exact E.
Qed.

(** C5, as amended. A number above 100 read from a line is reported as 100
    and a number up to 100 as it is, in both cases only when the value to
    report differs from the last one reported for a parsed percentage; so no
    reported percentage is above 100, and among the percentages reported for
    parsed percentages (the turns whose line has no marker) no two
    consecutive ones are equal. The report of 100 made for the marker is
    outside this rule. *)
Theorem parsed_progress_has_no_repeat song rs :
  no_repeat (parsed_progress song initial rs)
  /\ Forall (fun p => p <= 100) (progress_pcts (calls_during song initial rs))
  /\ (forall st line v, parsed_pct line = Some v -> 100 < v ->
        progress_pcts (snd (process_line song st line))
        = if differs 100 (last_pct st) then [100] else [])
  /\ (forall st line v, parsed_pct line = Some v -> v <= 100 ->
        progress_pcts (snd (process_line song st line))
        = if differs v (last_pct st) then [v] else []).
Proof.
  split; [exact (parsed_progress_chain song rs initial)|].
  split; [apply calls_during_le_100|].
  split; intros st line v P H; rewrite (process_line_reports song st line v P).
  - rewrite (clamp_above v H). reflexivity.
  - rewrite (clamp_below v H). reflexivity.
Qed.

(** A line that says 150% is reported as 100%, once: the same line again is
    not reported. *)
Example over_100_is_reported_as_100 :
  let line := "[download] 150.0% of 3.00MiB" in
  parsed_pct line = Some 150.0
  /\ calls_during "x" initial [Line line; Line line]
     = [ song_stage; merge_stage;
         Progress "x" 100 (3.00 * 1048576 * (100 / 100))
           (Some (3.00 * 1048576)) 0 0 ].
Proof. split; vm_compute; reflexivity. Qed.

(** C5, as stated, fails when the tool says that the file is already there
    and then prints its full percentage: 100 is reported twice in a row. *)
Lemma marker_then_100_repeats :
  let rs := [ Line "[download] out/x.mp3 has already been downloaded";
              Line "[download] 100% of 3.00MiB" ] in
  progress_pcts (calls_during "x" initial rs) = [100; 100]
  /\ ~ no_repeat (progress_pcts (calls_during "x" initial rs)).
Proof.
  split; [reflexivity|].
  intros [H _]. apply H. reflexivity.
Qed.

(** ** Numbers *)

Lemma span_all cls s : Str.all cls (fst (Str.span cls s)) = true.
Proof.
  induction s as [|c s IH]; [reflexivity|]. simpl.
  destruct (cls c) eqn:C; [|reflexivity].
  destruct (Str.span cls s) as [run tl]. simpl in *. rewrite C, IH. reflexivity.
Qed.

Lemma all_app cls s t :
  Str.all cls s = true -> Str.all cls t = true ->
  Str.all cls (s ++ t)%string = true.
Proof.
  induction s as [|c s IH]; simpl; [auto|].
  rewrite !andb_true_iff. intros [C S] T. auto.
Qed.

Lemma digit_value_nonneg c : Str.is_digit c = true -> (0 <= digit_value c)%Z.
Proof.
  unfold Str.is_digit, digit_value. rewrite andb_true_iff, Nat.leb_le.
  intros [H _]. lia.
Qed.

Lemma digits_value_nonneg s : forall acc,
  Str.all Str.is_digit s = true -> (0 <= acc)%Z ->
  (0 <= digits_value acc s)%Z.
Proof.
  induction s as [|c s IH]; simpl; intros acc H A; [exact A|].
  apply andb_true_iff in H as [C S]. apply IH; [exact S|].
  pose proof (digit_value_nonneg c C). lia.
Qed.

Lemma parse_float_nonneg text v : parse_float text = Some v -> 0 <= v.
Proof.
  unfold parse_float.
  pose proof (span_all Str.is_digit text) as I.
  destruct (Str.span Str.is_digit text) as [int_part rest]. simpl in I.
  destruct rest as [|c after].
  - destruct (is_empty int_part); [discriminate|]. intros [= <-].
    unfold Qle. simpl. pose proof (digits_value_nonneg int_part 0 I). lia.
  - destruct (Ascii.eqb c dot); [|discriminate].
    pose proof (span_all Str.is_digit after) as F.
    destruct (Str.span Str.is_digit after) as [frac_part rest']. simpl in F.
    destruct (negb (is_empty rest')); [discriminate|].
    destruct (is_empty int_part && is_empty frac_part); [discriminate|].
    intros [= <-]. unfold Qle. simpl.
    pose proof (digits_value_nonneg _ 0 (all_app _ _ _ I F)). lia.
Qed.

Lemma size_mult_pos unit : 0 < size_mult unit.
Proof.
  unfold size_mult.
  assert (0 < default (1024 ^ 2) (SIZE_MULT !! unit))%Z as H.
  { destruct (SIZE_MULT !! unit) as [z|] eqn:E; simpl; [|lia].
    unfold SIZE_MULT in E.
    apply lookup_insert_Some in E as [[_ <-]|[_ E]]; [lia|].
    apply lookup_insert_Some in E as [[_ <-]|[_ E]]; [lia|].
    apply lookup_singleton_Some in E as [_ <-]. lia. }
  unfold Qlt. simpl. lia.
Qed.

Lemma scaled_nonneg m v : scaled m = Some v -> 0 <= v.
Proof.
  unfold scaled. destruct (parse_float (fst m)) as [x|] eqn:P; [|discriminate].
  intros [= <-]. apply Qmult_le_0_compat.
  - exact (parse_float_nonneg _ _ P).
  - apply Qlt_le_weak, size_mult_pos.
Qed.

Lemma pct_of_range text : 0 <= pct_of text /\ pct_of text <= 100.
Proof.
  split; [|apply clamp_le_100].
  unfold pct_of, clamp.
  destruct (Qgtb _ 100); [discriminate|].
  destruct (parse_float text) as [v|] eqn:P; simpl.
  - exact (parse_float_nonneg _ _ P).
  - apply Qle_refl.
Qed.

(** ** The ETA *)

Lemma truthy_false x : truthy x = false <-> x == 0.
Proof. unfold truthy. rewrite negb_false_iff. apply Qeq_bool_iff. Qed.

Lemma truthy_true x : truthy x = true <-> ~ x == 0.
Proof.
  unfold truthy. rewrite negb_true_iff, <- not_true_iff_false, Qeq_bool_iff.
  tauto.
Qed.

Lemma remaining_nonneg t pct :
  0 <= t -> 0 <= pct -> pct <= 100 -> 0 <= t - t * (pct / 100).
Proof.
  intros T P1 P2.
  assert (pct / 100 <= 1) as H by (apply Qle_shift_div_r; lra).
  pose proof (Qmult_le_compat_r _ _ t H T) as K.
  lra.
Qed.

(** Line 215 on what line 191 and 192 computed. *)
Lemma eta_of_sound song total pct avg :
  match total with Some t => 0 <= t | None => True end ->
  0 <= pct -> pct <= 100 ->
  let downloaded := downloaded_of total pct in
  eta_sound (Progress song pct downloaded total avg
               (eta_of (remaining_of total downloaded) avg)).
Proof.
  intros T P1 P2. simpl.
  destruct total as [t|]; simpl;
    [|split; [lra|]; split; [reflexivity|discriminate]].
  destruct (truthy t) eqn:Tt; simpl.
  - set (r0 := t - t * (pct / 100)).
    assert (0 <= r0) as R by (apply remaining_nonneg; assumption).
    destruct (truthy avg) eqn:Ta; simpl.
    + destruct (Qgtb avg 0) eqn:Ga; simpl.
      * apply Qgtb_true in Ga.
        destruct (truthy r0) eqn:Tr.
        -- split; [apply Qle_shift_div_l; lra|]. split.
           ++ intros [E|E]; [lra|discriminate].
           ++ intros t' _ [= <-]. reflexivity.
        -- apply truthy_false in Tr. split; [lra|]. split; [reflexivity|].
           intros t' _ [= <-]. fold r0. rewrite Tr. unfold Qdiv.
           rewrite Qmult_0_l. reflexivity.
      * apply Qgtb_false in Ga. split; [lra|]. split; [reflexivity|].
        intros t' A. lra.
    + apply truthy_false in Ta. split; [lra|]. split; [reflexivity|].
      intros t' A. lra.
  - apply truthy_false in Tt. split; [lra|]. split; [reflexivity|].
    intros t' _ [= <-]. assert (t - 0 == 0) as E by lra.
    rewrite E. unfold Qdiv. rewrite Qmult_0_l. reflexivity.
Qed.

Lemma advance_eta pct ph : Forall eta_sound (snd (advance pct ph)).
Proof.
  rewrite advance_cases.
  destruct ph; simpl;
    repeat (match goal with |- context [if ?b then _ else _] =>
              destruct b end); simpl; repeat constructor.
Qed.

Lemma process_line_eta song st line :
  total_ok st ->
  total_ok (fst (process_line song st line))
  /\ Forall eta_sound (snd (process_line song st line)).
Proof.
  intros T. unfold process_line.
  destruct (Str.contains marker line).
  - split; [exact T|]. constructor; [|repeat constructor].
    simpl. split; [lra|]. split; [reflexivity|]. intros r A. lra.
  - set (total := match Re.search Re.size_at line with
                  | Some m =>
                      match scaled m with
                      | Some b => Some b
                      | None => total_bytes st
                      end
                  | None => total_bytes st
                  end).
    assert (match total with Some t => 0 <= t | None => True end) as T'.
    { subst total. destruct (Re.search Re.size_at line) as [m|]; [|exact T].
      destruct (scaled m) as [b|] eqn:S; [|exact T].
      exact (scaled_nonneg _ _ S). }
    destruct (Re.search Re.done_at line) as [text|]; [|split; [exact T'|constructor]].
    pose proof (advance_eta (pct_of text) (phase st)) as A.
    destruct (advance (pct_of text) (phase st)) as [ph stages].
    destruct (smooth (speed_samples st) (Re.search Re.speed_at line))
      as [samples avg].
    simpl in A. destruct (pct_of_range text) as [P1 P2].
    destruct (differs (pct_of text) (last_pct st)); simpl;
      (split; [exact T'|]); [|exact A].
    apply Forall_app. split; [exact A|]. constructor; [|constructor].
    exact (eta_of_sound song total (pct_of text) avg T' P1 P2).
Qed.

Lemma read_loop_eta song stop rs : forall turn st,
  total_ok st -> Forall eta_sound (snd (read_loop song stop turn st rs)).
Proof.
  induction rs as [|r rs IH]; intros turn st T; simpl.
  - destruct (stop_requested stop turn); constructor.
  - destruct (stop_requested stop turn); [constructor|].
    assert (total_ok (fst (step song st r))
            /\ Forall eta_sound (snd (step song st r))) as [T1 E1].
    { destruct r as [line|]; [apply process_line_eta; exact T|].
      split; [exact T|constructor]. }
    destruct (step song st r) as [st' evs].
    specialize (IH (S turn) st' T1).
    destruct (read_loop song stop (S turn) st' rs) as [[stopped st''] evs'].
    simpl in *. apply Forall_app. split; assumption.
Qed.

(** With exact numbers, in every progress call of [download_song] the ETA is
    not negative; it is 0 when the average speed is 0 or the total size is
    unknown; and it is the total size less the downloaded one, divided by the
    average speed, when that speed is positive and the total size is known. *)
Lemma eta_sound_on_exact_numbers song playlist_dir popen stop_check_cb :
  Forall eta_sound (snd (download_song song playlist_dir popen stop_check_cb)).
Proof.
  unfold download_song.
  destruct (popen (download_cmd song playlist_dir)) as [msg|p]; simpl.
  - repeat constructor.
  - pose proof (read_loop_eta song stop_check_cb (output p) 0 initial I) as E.
    destruct (read_loop song stop_check_cb 0 initial (output p))
      as [[stopped st] evs].
    simpl in E.
    assert (Forall eta_sound
              (announce ++ [Stage "Downloading banner" "download"] ++ evs))
      as E'.
    { apply Forall_app. split; [repeat constructor|].
      constructor; [exact I|exact E]. }
    destruct stopped; simpl; [exact E'|].
    destruct (conclude (returncode (how_ended p)) st) as [ok last] eqn:C.
    simpl. do 5 (constructor; [exact I|]).
    apply Forall_app. split; [exact E|].
    unfold conclude in C.
    destruct (returncode (how_ended p)) as [[|q|q]|];
      try destruct (saw_progress st); injection C as <- <-;
      repeat constructor.
Qed.

(** The ETA of a line that says half of 4 MiB is done at 1 MiB per second is
    2 seconds. *)
Example eta_of_half_way :
  snd (process_line "x" initial "[download]  50.0% of 4.00MiB at 1.00MiB/s")
  = [ song_stage;
      Progress "x" 50.0 (4.00 * 1048576 * (50.0 / 100)) (Some (4.00 * 1048576))
        ((0 + (1.00 * 1048576 + 0)) / 1)
        ((4.00 * 1048576 - 4.00 * 1048576 * (50.0 / 100))
         / ((0 + (1.00 * 1048576 + 0)) / 1)) ]
  /\ (4.00 * 1048576 - 4.00 * 1048576 * (50.0 / 100))
       / ((0 + (1.00 * 1048576 + 0)) / 1) == 2.
Proof. split; [vm_compute; reflexivity|reflexivity]. Qed.

(** *** The ETA in binary64 *)

(** Line 215 on binary64 numbers, for every line and every state of the
    loop: the ETA of a call is 0 when the average speed is 0 or the total
    size is unknown, and when the total size is known and not 0 and the
    average speed is above 0 it is the remaining size, the total size less
    the downloaded one, divided by the average speed, or 0 when nothing
    remains. *)
Lemma binary64_eta_cases st line c :
  In c (snd (Binary64.process_line st line)) ->
  (Binary64.truthy (Binary64.avg_speed c) = false \/ Binary64.total c = None ->
   Binary64.eta c = Binary64.zero)
  /\ (forall t, Binary64.total c = Some t -> Binary64.truthy t = true ->
        Binary64.gt (Binary64.avg_speed c) Binary64.zero = true ->
        let remaining :=
          SFsub Binary64.prec Binary64.emax t (Binary64.downloaded c) in
        Binary64.eta c
        = if Binary64.truthy remaining
          then SFdiv Binary64.prec Binary64.emax remaining (Binary64.avg_speed c)
          else Binary64.zero).
Proof.
  unfold Binary64.process_line.
  destruct (Str.contains marker line).
  - intros [<-|[]]. cbn. split; [reflexivity|]. intros t [= <-]. discriminate.
  - set (total := match Re.search Re.size_at line with
                  | Some m =>
                      match Binary64.scaled m with
                      | Some b => Some b
                      | None => Binary64.total_bytes st
                      end
                  | None => Binary64.total_bytes st
                  end).
    destruct (Re.search Re.done_at line) as [text|]; [|intros []].
    set (pct := Binary64.clamp (default Binary64.zero (Binary64.float text))).
    destruct (Binary64.smooth (Binary64.speed_samples st)
                (Re.search Re.speed_at line)) as [samples avg].
    destruct (Binary64.differs pct (Binary64.last_pct st)); [|intros []].
    intros [<-|[]].
    cbn [Binary64.eta Binary64.avg_speed Binary64.total Binary64.downloaded].
    unfold Binary64.eta_of, Binary64.remaining_of.
    destruct total as [t|].
    + split.
      * intros [A|A]; [|discriminate].
        destruct (Binary64.truthy t); [|reflexivity]. rewrite A. reflexivity.
      * intros t' [= <-] T G. rewrite T, G.
        destruct (Binary64.truthy avg) eqn:A.
        -- cbn [andb]. reflexivity.
        -- unfold Binary64.truthy in A. apply negb_false_iff in A.
           unfold Binary64.gt in G. unfold Binary64.eq in A.
           destruct avg as [s|s| |s m e]; try destruct s; cbn in A, G;
             discriminate.
    + split; [reflexivity|discriminate].
Qed.


(** The same line with a size of 4 MiB: the ETA is 2 seconds, as with exact
    numbers. *)
Example binary64_eta_of_half_way :
  snd (Binary64.process_line Binary64.initial
         "[download]  50.0% of 4.00MiB at 1.00MiB/s")
  = [ {| Binary64.percent := Binary64.of_Q 50;
         Binary64.downloaded := Binary64.of_Q (2 * 1048576);
         Binary64.total := Some (Binary64.of_Q (4 * 1048576));
         Binary64.avg_speed := Binary64.of_Q 1048576;
         Binary64.eta := Binary64.of_Q 2 |} ].
Proof. vm_compute. reflexivity. Qed.

(** ** [App.run] *)

Lemma downloads_app tr tr' :
  downloads (tr ++ tr') = (downloads tr ++ downloads tr')%list.
Proof. unfold downloads. apply flat_map_app. Qed.

Lemma logged_app tag tr tr' :
  logged tag (tr ++ tr') = (logged tag tr ++ logged tag tr')%list.
Proof. unfold logged. apply flat_map_app. Qed.

Section Open_window.

Variable e : env.
Hypothesis never_closed : closing e = None.

Lemma is_running_open w : is_running e w = (true, tick w).
Proof. unfold is_running, still_open. rewrite never_closed. reflexivity. Qed.

Lemma log_open text tag w :
  log text tag e w = (tt, push (Log text tag) (tick w)).
Proof. unfold log, bind. rewrite is_running_open. reflexivity. Qed.

(** The world after the turn of the first pass for [song]. *)
Lemma first_pass_cons_open playlist_dir song rest w :
  first_pass playlist_dir (song :: rest) e w =
  first_pass playlist_dir rest e
    (let w1 := push (Download song)
                 (next_call (push (Log song "song") (tick (tick w)))) in
     if fst (download_song song playlist_dir (popen e (calls w))
               (Some (stops e (calls w))))
     then push (Log ("Finished " ++ song) "done") (tick w1)
     else {| clock := clock w1; calls := calls w1;
             failed_songs := (failed_songs w1 ++ [song])%list;
             trace := trace w1 |}).
Proof.
  cbn [first_pass]. unfold bind.
  rewrite is_running_open. cbn [negb]. rewrite log_open.
  unfold call_download. cbn [calls push tick].
  destruct (fst (download_song song playlist_dir (popen e (calls w))
                   (Some (stops e (calls w))))).
  - unfold ret. rewrite log_open. reflexivity.
  - unfold ret, note_failed. reflexivity.
Qed.

Lemma first_pass_open playlist_dir songs : forall w w',
  snd (first_pass playlist_dir songs e w) = w' ->
  calls w' = (calls w + length songs)%nat
  /\ downloads (trace w') = (downloads (trace w) ++ songs)%list
  /\ logged "warn" (trace w') = logged "warn" (trace w)
  /\ failed_songs w' =
     (failed_songs w ++ failing e playlist_dir (calls w) songs)%list.
Proof.
  induction songs as [|song rest IH]; intros w w' H.
  - simpl in H. subst w'. simpl. rewrite Nat.add_0_r, !app_nil_r. auto.
  - rewrite first_pass_cons_open in H.
    destruct (IH _ _ H) as (C & D & L & F). clear IH H.
    rewrite C, D, L, F. clear C D L F. cbn [failing].
    destruct (fst (download_song song playlist_dir (popen e (calls w))
                     (Some (stops e (calls w))))); simpl;
      rewrite ?downloads_app, ?logged_app; simpl;
      rewrite ?app_nil_r, <- ?app_assoc; simpl;
      (split; [lia|auto]).
Qed.

Lemma retry_pass_cons_open playlist_dir song rest w :
  retry_pass playlist_dir (song :: rest) e w =
  let ok := fst (download_song song playlist_dir (popen e (calls w))
                   (Some (stops e (calls w)))) in
  let r := retry_pass playlist_dir rest e
             (push (Download song)
                (next_call
                   (push (Log ("Retrying " ++ song) "retry")
                      (tick (tick w))))) in
  (if ok then fst r else song :: fst r, snd r).
Proof.
  cbn [retry_pass]. unfold bind.
  rewrite is_running_open. cbn [negb]. rewrite log_open.
  unfold call_download. cbn [calls push tick].
  destruct (retry_pass playlist_dir rest e _) as [still w']. reflexivity.
Qed.

Lemma retry_pass_open playlist_dir missing : forall w still w',
  retry_pass playlist_dir missing e w = (still, w') ->
  still = failing e playlist_dir (calls w) missing
  /\ downloads (trace w') = (downloads (trace w) ++ missing)%list
  /\ logged "warn" (trace w') = logged "warn" (trace w)
  /\ failed_songs w' = failed_songs w.
Proof.
  induction missing as [|song rest IH]; intros w still w' H.
  - injection H as <- <-. simpl. rewrite app_nil_r. auto.
  - rewrite retry_pass_cons_open in H. cbv zeta in H.
    destruct (retry_pass playlist_dir rest e _) as [still0 w0] eqn:R.
    destruct (IH _ _ _ R) as (S1 & D & L & F). clear IH R.
    simpl in H. injection H as <- <-. rewrite D, L, S1, F. cbn [failing].
    simpl. rewrite ?downloads_app, ?logged_app. simpl.
    rewrite ?app_nil_r, <- ?app_assoc. simpl.
    destruct (fst (download_song song playlist_dir (popen e (calls w))
                     (Some (stops e (calls w))))); auto.
Qed.

Lemma log_each_open prefix l : forall w w',
  snd (log_each prefix l e w) = w' ->
  downloads (trace w') = downloads (trace w)
  /\ logged "warn" (trace w') =
     (logged "warn" (trace w) ++ map (String.append prefix) l)%list
  /\ failed_songs w' = failed_songs w.
Proof.
  induction l as [|s rest IH]; intros w w' H.
  - simpl in H. subst w'. rewrite app_nil_r. auto.
  - cbn [log_each] in H. unfold bind in H. rewrite log_open in H.
    destruct (IH _ _ H) as (D & L & F). rewrite D, L, F. simpl.
    rewrite downloads_app, logged_app. simpl.
    rewrite app_nil_r, <- app_assoc. auto.
Qed.

End Open_window.

Lemma missing_songs_on_disk e songs :
  missing_songs songs (existing_files (listing e))
  = List.filter (fun s => negb (on_disk e s)) songs.
Proof.
  unfold missing_songs. apply List.filter_ext. intros s.
  unfold on_disk, listed, existing_files.
  destruct (listing e) as [names|]; simpl.
  - destruct (existsb _ names) eqn:X.
    + apply bool_decide_eq_false. intros H. apply H. clear H.
      apply existsb_exists in X as [name [I X]].
      apply andb_true_iff in X as [X1 X2]. apply String.eqb_eq in X2.
      apply elem_of_list_to_set, list_elem_of_In, in_map_iff.
      exists name. split; [exact X2|]. apply filter_In. auto.
    + apply bool_decide_eq_true. intros H.
      apply elem_of_list_to_set, list_elem_of_In, in_map_iff in H
        as [name [E I]].
      apply filter_In in I as [I M].
      apply not_true_iff_false in X. apply X. apply existsb_exists.
      exists name. split; [exact I|]. rewrite M. apply String.eqb_eq. exact E.
  - apply bool_decide_eq_true. set_solver.
Qed.

Lemma reconcile_open e playlist_dir songs w w' :
  closing e = None ->
  snd (reconcile playlist_dir songs e w) = w' ->
  let missing := missing_songs songs (existing_files (listing e)) in
  downloads (trace w') = (downloads (trace w) ++ missing)%list
  /\ logged "warn" (trace w') =
     (logged "warn" (trace w)
      ++ manual_notice (failing e playlist_dir (calls w) missing))%list
  /\ failed_songs w' = failed_songs w.
Proof.
  intros O H missing. unfold reconcile, bind, ask in H.
  rewrite (log_open e O) in H. fold missing in H.
  destruct missing as [|m ms] eqn:Mi.
  - cbn [length Nat.eqb negb] in H. rewrite !(log_open e O) in H.
    subst w'. simpl. rewrite !downloads_app, !logged_app. simpl.
    rewrite !app_nil_r. auto.
  - cbn [length Nat.eqb negb] in H. rewrite (log_open e O) in H.
    destruct (retry_pass playlist_dir (m :: ms) e _) as [still w1] eqn:R.
    apply (retry_pass_open e O) in R as (S1 & D & L & F).
    cbn [calls push tick] in S1. rewrite <- S1.
    simpl in D, L, F. rewrite !downloads_app in D. rewrite !logged_app in L.
    simpl in D, L. rewrite !app_nil_r in D, L.
    destruct still as [|s ss].
    + rewrite !(log_open e O) in H. subst w'. simpl.
      rewrite !downloads_app, !logged_app. simpl.
      rewrite !app_nil_r, D, L. auto.
    + rewrite (log_open e O) in H.
      destruct (log_each "  " (s :: ss) e _) as [u w2] eqn:LE.
      assert (snd (log_each "  " (s :: ss) e
                (push (Log "Manual download required for:" "warn") (tick w1)))
              = w2) as LE' by (rewrite LE; reflexivity).
      apply (log_each_open e O) in LE' as (D2 & L2 & F2).
      rewrite !(log_open e O) in H. subst w'. simpl.
      rewrite !downloads_app, !logged_app. simpl.
      rewrite !app_nil_r, D2, L2, F2. simpl.
      rewrite !downloads_app, !logged_app. simpl.
      rewrite !app_nil_r, D, L, <- !app_assoc. simpl. auto.
Qed.

(** C7, as amended. In a run whose window stays open, whose playlist has
    songs and whose directory can be created: the songs looked for again are
    those whose
    title is not the stem of a listed mp3 file; [download_song] is called
    once for each song in the first pass and then once for each missing
    song; and the songs listed under the manual-download notice are the
    missing songs whose second call failed. *)
Theorem rescan_retries_each_missing_once e playlist_name songs :
  closing e = None ->
  get_playlist_info (tool e) = inr (playlist_name, songs) ->
  songs <> [] ->
  mkdir_error e = None ->
  let playlist_dir := path_join (BASE_DIR e) playlist_name in
  let w := snd (run e start_world) in
  let missing := missing_songs songs (existing_files (listing e)) in
  let still := failing e playlist_dir (length songs) missing in
  missing = List.filter (fun s => negb (on_disk e s)) songs
  /\ downloads (trace w) = (songs ++ missing)%list
  /\ logged "warn" (trace w) = manual_notice still
  /\ failed_songs w = failing e playlist_dir 0 songs.
Proof.
  intros O G N K playlist_dir w missing still.
  split; [apply missing_songs_on_disk|].
  subst w. unfold run, bind, ask. rewrite G, (is_running_open e O).
  cbn [negb]. destruct songs as [|s0 rest]; [congruence|].
  unfold emit. rewrite K. fold playlist_dir.
  set (songs := s0 :: rest) in *.
  destruct (first_pass playlist_dir songs e _) as [u w1] eqn:FP.
  assert (snd (first_pass playlist_dir songs e
                 (push (Mkdir playlist_dir) (tick start_world))) = w1) as FP'
    by (rewrite FP; reflexivity).
  apply (first_pass_open e O) in FP' as (C & D & L & F).
  cbn [calls push tick start_world trace failed_songs] in C, D, L, F.
  rewrite (is_running_open e O). cbn [negb].
  destruct (reconcile_open e playlist_dir songs (tick w1)
              (snd (reconcile playlist_dir songs e (tick w1))) O eq_refl)
    as (D2 & L2 & F2).
  fold missing in D2, L2. cbn [calls tick trace failed_songs] in D2, L2, F2.
  rewrite C in L2. fold still in L2. rewrite D in D2. rewrite L in L2.
  rewrite F in F2.
  split; [exact D2|]. split; [exact L2|exact F2].
Qed.

Lemma rescan_retries_each_missing_once_witness :
  get_playlist_info (tool sample_env) = inr ("My List", ["a"; "b"; "c"])
  /\ missing_songs ["a"; "b"; "c"] (existing_files (listing sample_env))
     = ["b"; "c"]
  /\ downloads (trace (snd (run sample_env start_world)))
     = ["a"; "b"; "c"; "b"; "c"]
  /\ logged "warn" (trace (snd (run sample_env start_world)))
     = [ "Manual download required for:"; "  b";
         "These failed due to YouTube restrictions or network issues." ]
  /\ failed_songs (snd (run sample_env start_world)) = ["b"].
Proof.
  assert (["a"; "b"; "c"] <> @nil string) as N by discriminate.
  destruct (rescan_retries_each_missing_once sample_env "My List"
              ["a"; "b"; "c"] eq_refl eq_refl N eq_refl)
    as (M & D & L & F).
  split; [reflexivity|]. split; [vm_compute; reflexivity|].
  split; [rewrite D; vm_compute; reflexivity|].
  split; [rewrite L; vm_compute; reflexivity|].
  rewrite F. vm_compute. reflexivity.
Defined.

(** C8, as amended. When the playlist has no song, [run] neither creates
    the playlist directory nor calls [download_song]; it logs that the
    playlist is empty, under the tag [error], when the window is still open,
    and does nothing at all when the window has been closed. *)
Theorem empty_playlist_is_fatal e playlist_name :
  get_playlist_info (tool e) = inr (playlist_name, []) ->
  let tr := trace (snd (run e start_world)) in
  tr = (if still_open e 1 then [Log "Playlist is empty." "error"] else [])
  /\ downloads tr = []
  /\ (forall path, ~ In (Mkdir path) tr).
Proof.
  intros G tr.
  assert (tr = if still_open e 1 then [Log "Playlist is empty." "error"]
               else []) as T.
  { subst tr. unfold run, bind, ask. rewrite G.
    unfold log, bind, is_running, emit, ret, still_open.
    destruct (closing e) as [[|[|k]]|] eqn:C; simpl; rewrite ?C; reflexivity. }
  split; [exact T|]. rewrite T.
  destruct (still_open e 1); simpl; split; try reflexivity;
    intros path H; repeat (destruct H as [H|H]; [discriminate|]);
    exact H.
Qed.

Lemma empty_playlist_is_fatal_witness :
  get_playlist_info (tool empty_env) = inr ("Empty", [])
  /\ trace (snd (run empty_env start_world))
     = [Log "Playlist is empty." "error"]
  /\ downloads (trace (snd (run empty_env start_world))) = []
  /\ (forall path, ~ In (Mkdir path) (trace (snd (run empty_env start_world)))).
Proof.
  split; [reflexivity|].
  exact (empty_playlist_is_fatal empty_env "Empty" eq_refl).
Defined.

(** C7, as stated, fails when the window is closed during the retry pass:
    the song c is missing and [download_song] is not called for it again. *)
Lemma closing_stops_the_retries :
  let w := snd (run closing_env start_world) in
  get_playlist_info (tool closing_env) = inr ("My List", ["a"; "b"; "c"])
  /\ missing_songs ["a"; "b"; "c"] (existing_files (listing closing_env))
     = ["b"; "c"]
  /\ downloads (trace w) = ["a"; "b"; "c"; "b"]
  /\ downloads (trace w) <> (["a"; "b"; "c"] ++ ["b"; "c"])%list
  /\ logged "warn" (trace w) = [].
Proof.
  split; [reflexivity|]. split; [vm_compute; reflexivity|].
  split; [vm_compute; reflexivity|].
  split; [vm_compute; discriminate|vm_compute; reflexivity].
Qed.

(** C8, as stated, fails when the window is closed while the playlist
    document is fetched: the run ends without logging anything. *)
Lemma closed_window_logs_no_error :
  get_playlist_info (tool closed_empty_env) = inr ("Empty", [])
  /\ trace (snd (run closed_empty_env start_world)) = []
  /\ ~ (exists text,
          In (Log text "error") (trace (snd (run closed_empty_env start_world)))).
Proof.
  split; [reflexivity|]. split; [reflexivity|].
  intros [text H]. exact H.
Qed.


(** * Further properties *)

(** ** More on strings *)

Lemma all_filter keep cls s :
  (forall c, keep c = true -> cls c = true) ->
  Str.all cls (Str.filter keep s) = true.
Proof.
  intros H. induction s as [|c s IH]; [reflexivity|]. simpl.
  destruct (keep c) eqn:K; [|exact IH]. simpl. rewrite (H c K), IH. reflexivity.
Qed.

Lemma all_weaken (cls cls' : ascii -> bool) s :
  (forall c, cls c = true -> cls' c = true) ->
  Str.all cls s = true -> Str.all cls' s = true.
Proof.
  intros H. induction s as [|c s IH]; [reflexivity|]. simpl.
  rewrite !andb_true_iff. intros [C S]. auto.
Qed.

Lemma all_filter_keeps keep cls s :
  Str.all cls s = true -> Str.all cls (Str.filter keep s) = true.
Proof.
  induction s as [|c s IH]; [reflexivity|]. simpl.
  rewrite andb_true_iff. intros [C S].
  destruct (keep c); simpl; [rewrite C|]; auto.
Qed.

Lemma all_lstrip drop cls s :
  Str.all cls s = true -> Str.all cls (Str.lstrip drop s) = true.
Proof.
  induction s as [|c s IH]; [reflexivity|]. simpl.
  rewrite andb_true_iff. intros [C S].
  destruct (drop c); [auto|]. simpl. rewrite C, S. reflexivity.
Qed.

Lemma all_rstrip drop cls s :
  Str.all cls s = true -> Str.all cls (Str.rstrip drop s) = true.
Proof.
  induction s as [|c s IH]; [reflexivity|]. simpl.
  rewrite andb_true_iff. intros [C S]. specialize (IH S).
  destruct (Str.rstrip drop s) as [|k ks].
  - destruct (drop c); simpl; [|rewrite C]; reflexivity.
  - simpl in *. rewrite C, IH. reflexivity.
Qed.

Lemma first_lstrip drop s :
  match first_char (Str.lstrip drop s) with
  | Some c => drop c = false
  | None => True
  end.
Proof.
  induction s as [|c s IH]; [exact I|]. simpl.
  destruct (drop c) eqn:D; [exact IH|]. simpl. exact D.
Qed.

Lemma first_rstrip drop s :
  match first_char (Str.rstrip drop s) with
  | Some c => first_char s = Some c
  | None => True
  end.
Proof.
  destruct s as [|c s]; [exact I|]. simpl.
  destruct (Str.rstrip drop s); [destruct (drop c)|]; simpl; auto.
Qed.

Lemma filter_all_id keep s :
  Str.all keep s = true -> Str.filter keep s = s.
Proof.
  induction s as [|c s IH]; [reflexivity|]. simpl.
  rewrite andb_true_iff. intros [C S]. rewrite C, (IH S). reflexivity.
Qed.

Lemma rstrip_last_id drop s c :
  Str.last s = Some c -> drop c = false -> Str.rstrip drop s = s.
Proof.
  revert c. induction s as [|d s IH]; intros c L D; [reflexivity|].
  simpl. destruct s as [|d' s'].
  - simpl in *. injection L as ->. rewrite D. reflexivity.
  - rewrite (IH c L D). reflexivity.
Qed.

Lemma subsequence_refl s : subsequence s s.
Proof. induction s as [|c s IH]; simpl; auto. Qed.

Lemma subsequence_trans c : forall a b,
  subsequence a b -> subsequence b c -> subsequence a c.
Proof.
  induction c as [|d c IH]; intros a b H1 H2; simpl in *.
  - subst b. exact H1.
  - destruct H2 as [H2|H2]; [left; eapply IH; eauto|].
    destruct b as [|d' b']; [destruct H2|]. destruct H2 as [-> H2].
    simpl in H1. destruct H1 as [H1|H1]; [left; eapply IH; eauto|].
    destruct a as [|d'' a']; [destruct H1|]. destruct H1 as [-> H1].
    right. split; [reflexivity|]. eapply IH; eauto.
Qed.

Lemma subsequence_filter keep s : subsequence (Str.filter keep s) s.
Proof.
  induction s as [|c s IH]; [reflexivity|]. simpl.
  destruct (keep c); auto.
Qed.

Lemma subsequence_lstrip drop s : subsequence (Str.lstrip drop s) s.
Proof.
  induction s as [|c s IH]; [reflexivity|]. simpl.
  destruct (drop c); [auto|]. right. split; [reflexivity|apply subsequence_refl].
Qed.

Lemma subsequence_rstrip drop s : subsequence (Str.rstrip drop s) s.
Proof.
  induction s as [|c s IH]; [reflexivity|]. simpl.
  destruct (Str.rstrip drop s) as [|k ks].
  - destruct (drop c); [left; exact IH|]. right. split; [reflexivity|exact IH].
  - right. split; [reflexivity|exact IH].
Qed.

(** ** More on [clean_name] *)

Lemma clean_name_all_allowed name :
  Str.all (fun c => negb (forbidden c)) (clean_name name) = true.
Proof.
  destruct name as [[|a s]|]; [reflexivity| |reflexivity].
  unfold clean_name. apply all_rstrip. unfold Str.strip.
  apply all_rstrip, all_lstrip.
  set (s1 := Str.filter _ (String a s)).
  assert (Str.all (fun c => negb (Ascii.eqb c hash)) s1 = true) as H1
    by (apply all_filter; auto).
  assert (Str.all (fun c => negb (Ascii.eqb c hash))
            (Str.filter (fun c => negb (Str.mem c illegal_chars)) s1) = true)
    as H2 by (apply all_filter_keeps; exact H1).
  assert (Str.all (fun c => negb (Str.mem c illegal_chars))
            (Str.filter (fun c => negb (Str.mem c illegal_chars)) s1) = true)
    as H3 by (apply all_filter; auto).
  clear H1. revert H2 H3.
  generalize (Str.filter (fun c => negb (Str.mem c illegal_chars)) s1).
  intros t. induction t as [|c t IH]; [reflexivity|]. cbn [Str.all].
  rewrite !andb_true_iff. intros [A1 A2] [B1 B2].
  split; [|auto]. unfold forbidden.
  rewrite negb_true_iff in A1, B1. rewrite A1, B1. reflexivity.
Qed.

(** X1. Whatever the input, a cleaned name has none of the ten characters,
    does not end in a dot and does not start with whitespace. *)
Theorem clean_name_is_safe name :
  Str.all (fun c => negb (forbidden c)) (clean_name name) = true
  /\ Str.last (clean_name name) <> Some dot
  /\ match first_char (clean_name name) with
     | Some c => Str.is_space c = false
     | None => True
     end.
Proof.
  split; [apply clean_name_all_allowed|].
  split; [apply clean_name_no_trailing_dot|].
  destruct name as [[|a s]|]; [reflexivity| |reflexivity].
  unfold clean_name, Str.strip.
  set (t := Str.filter _ (Str.filter _ (String a s))).
  pose proof (first_rstrip (fun c => Ascii.eqb c dot)
                (Str.rstrip Str.is_space (Str.lstrip Str.is_space t))) as R1.
  destruct (first_char (Str.rstrip _ (Str.rstrip _ _))) as [c|]; [|exact I].
  pose proof (first_rstrip Str.is_space (Str.lstrip Str.is_space t)) as R2.
  rewrite R1 in R2.
  pose proof (first_lstrip Str.is_space t) as R3.
  rewrite R2 in R3. exact R3.
Qed.

(** X2. A name that has nothing to remove is returned as it is: no
    forbidden character, no whitespace at either end, no final dot. *)
Theorem clean_name_keeps_clean_names s :
  already_clean s -> clean_name (Some s) = s.
Proof.
  intros (A & (c & F & Fs) & (d & L & Ls & Ld)).
  destruct s as [|a s]; [discriminate|].
  unfold clean_name.
  assert (Str.all (fun c => negb (Ascii.eqb c hash)) (String a s) = true) as H1.
  { revert A. apply all_weaken. intros x. unfold forbidden.
    rewrite !negb_true_iff. intros H. apply orb_false_iff in H. tauto. }
  assert (Str.all (fun c => negb (Str.mem c illegal_chars)) (String a s) = true)
    as H2.
  { revert A. apply all_weaken. intros x. unfold forbidden.
    rewrite !negb_true_iff. intros H. apply orb_false_iff in H. tauto. }
  rewrite (filter_all_id _ _ H1), (filter_all_id _ _ H2).
  unfold Str.strip. simpl in F. injection F as ->.
  cbn [Str.lstrip]. rewrite Fs.
  rewrite (rstrip_last_id _ _ d L Ls).
  apply (rstrip_last_id _ _ d L Ld).
Qed.

Lemma clean_name_keeps_clean_names_witness :
  already_clean "AC DC - Back in Black (Live)"
  /\ clean_name (Some "AC DC - Back in Black (Live)")
     = "AC DC - Back in Black (Live)".
Proof.
  assert (already_clean "AC DC - Back in Black (Live)") as H.
  { split; [reflexivity|]. split.
    - exists "A"%char. split; reflexivity.
    - exists ")"%char. repeat split; reflexivity. }
  split; [exact H|].
  exact (clean_name_keeps_clean_names "AC DC - Back in Black (Live)" H).
Defined.

(** X3. Cleaning a non-empty name only removes characters: the result is
    the name with some characters left out, the others in their order. *)
Theorem clean_name_only_removes c s :
  subsequence (clean_name (Some (String c s))) (String c s).
Proof.
  unfold clean_name.
  eapply subsequence_trans; [apply subsequence_rstrip|].
  unfold Str.strip.
  eapply subsequence_trans; [apply subsequence_rstrip|].
  eapply subsequence_trans; [apply subsequence_lstrip|].
  eapply subsequence_trans; apply subsequence_filter.
Qed.

(** ** [get_playlist_info] *)



Lemma song_titles_cleaned entries :
  song_titles entries = map (fun t => clean_name (Some t)) (titled entries).
Proof.
  induction entries as [|e rest IH]; [reflexivity|]. simpl.
  destruct (entry_title e); simpl; rewrite IH; reflexivity.
Qed.

Lemma titled_length entries : (length (titled entries) <= length entries)%nat.
Proof.
  induction entries as [|e rest IH]; simpl; [lia|].
  destruct (entry_title e); simpl; lia.
Qed.

Lemma clean_name_safe_name name : safe_name (clean_name name).
Proof.
  split; [apply clean_name_all_allowed|apply clean_name_no_trailing_dot].
Qed.

(** X5. Every name of a resolved playlist is a cleaned one: the playlist
    title and each song title have no forbidden character and no final dot,
    and there are at most as many songs as entries in the document. *)
Theorem resolved_names_are_safe rc out err data title songs :
  get_playlist_info (ToolExit rc out err (Some data)) = inr (title, songs) ->
  safe_name title
  /\ Forall safe_name songs
  /\ (length songs <= length (default [] (json_entries data)))%nat.
Proof.
  simpl.
  destruct (negb (rc =? 0)%Z || is_empty (Str.strip Str.is_space out));
    [discriminate|].
  intros [= <- <-].
  split; [apply clean_name_safe_name|]. split.
  - rewrite song_titles_cleaned. apply List.Forall_forall. intros x H.
    apply in_map_iff in H as [t [<- _]]. apply clean_name_safe_name.
  - rewrite song_titles_cleaned, length_map. apply titled_length.
Qed.

Lemma resolved_names_are_safe_witness :
  get_playlist_info (tool sample_env) = inr ("My List", ["a"; "b"; "c"])
  /\ safe_name "My List"
  /\ Forall safe_name ["a"; "b"; "c"]
  /\ (length ["a"; "b"; "c"] <= 5)%nat.
Proof.
  split; [reflexivity|].
  exact (resolved_names_are_safe 0 "{...}" EmptyString
           {| json_title := Some (Some "My: List");
              json_entries :=
                Some [ EDict (Some "a"); ENull; EDict (Some "b?");
                       EDict None; EDict (Some "c") ] |}
           "My List" ["a"; "b"; "c"] eq_refl).
Defined.

(** ** What the regular expressions give *)

Lemma search_found {A} (match_at : string -> option A) s x :
  Re.search match_at s = Some x -> exists t, match_at t = Some x.
Proof.
  induction s as [|c s IH]; simpl.
  - destruct (match_at EmptyString) eqn:M; [|discriminate].
    intros [= <-]. eauto.
  - destruct (match_at (String c s)) eqn:M; [intros [= <-]; eauto|].
    exact IH.
Qed.

Lemma span_split cls s :
  s = (fst (Str.span cls s) ++ snd (Str.span cls s))%string
  /\ match first_char (snd (Str.span cls s)) with
     | Some c => cls c = false
     | None => True
     end.
Proof.
  induction s as [|c s IH]; simpl; [auto|].
  destruct (cls c) eqn:C; simpl; [|auto].
  destruct (Str.span cls s) as [run tl]. simpl in *.
  destruct IH as [E F]. split; [rewrite E at 1; reflexivity|exact F].
Qed.

Lemma span_of_run cls run tl :
  Str.all cls run = true ->
  match first_char tl with Some c => cls c = false | None => True end ->
  Str.span cls (run ++ tl)%string = (run, tl).
Proof.
  intros A F. induction run as [|c run IH]; simpl.
  - destruct tl as [|d tl]; [reflexivity|]. simpl in *. rewrite F. reflexivity.
  - simpl in A. apply andb_true_iff in A as [C A]. rewrite C, (IH A).
    reflexivity.
Qed.

Lemma append_empty_r s : (s ++ EmptyString)%string = s.
Proof.
  induction s as [|c s IH]; [reflexivity|].
  change (String c (s ++ EmptyString)%string = String c s).
  rewrite IH. reflexivity.
Qed.

Lemma is_empty_false s : is_empty s = false -> s <> EmptyString.
Proof. destruct s; [discriminate|discriminate]. Qed.

(** A run of digits is read as a number. *)
Lemma parse_float_digits run :
  Str.all Str.is_digit run = true -> is_empty run = false ->
  parse_float run = Some (inject_Z (digits_value 0 run)).
Proof.
  intros A N. unfold parse_float.
  pose proof (span_of_run Str.is_digit run EmptyString A I) as S1.
  rewrite append_empty_r in S1. rewrite S1, N. reflexivity.
Qed.

(** Two runs of digits around a dot are read as a number. *)
Lemma parse_float_decimal int_part frac_part :
  Str.all Str.is_digit int_part = true ->
  Str.all Str.is_digit frac_part = true ->
  is_empty frac_part = false ->
  parse_float (int_part ++ "." ++ frac_part)%string
  = Some (Qmake (digits_value 0 (int_part ++ frac_part)%string)
                (pow10 (String.length frac_part))).
Proof.
  intros A B N. unfold parse_float.
  rewrite (span_of_run Str.is_digit int_part ("." ++ frac_part)%string A);
    [|reflexivity].
  change ("." ++ frac_part)%string with (String dot frac_part).
  cbv iota beta. rewrite Ascii.eqb_refl.
  pose proof (span_of_run Str.is_digit frac_part EmptyString B I) as S1.
  rewrite append_empty_r in S1. rewrite S1. cbn [is_empty negb]. rewrite N, andb_false_r.
  reflexivity.
Qed.

(** X6. The text found by the percentage pattern is always read as a
    number, which is not negative: the fall-back to 0.0 of lines 185-186 is
    never taken. *)
Theorem percentage_always_parses line text :
  Re.search Re.done_at line = Some text ->
  exists v, parse_float text = Some v /\ 0 <= v /\ pct_of text = clamp v.
Proof.
  intros H. apply search_found in H as [t H].
  assert (exists v, parse_float text = Some v) as [v P].
  { unfold Re.done_at in H.
    pose proof (span_all Str.is_digit t) as A.
    destruct (Str.span Str.is_digit t) as [int_part r]. simpl in A.
    destruct (is_empty int_part) eqn:N; [discriminate|].
    destruct r as [|c after]; [discriminate|].
    destruct (Ascii.eqb c "%"%char).
    - injection H as <-. rewrite (parse_float_digits _ A N). eauto.
    - destruct (Ascii.eqb c dot); [|discriminate].
      pose proof (span_all Str.is_digit after) as B.
      destruct (Str.span Str.is_digit after) as [frac_part r']. simpl in B.
      destruct (is_empty frac_part) eqn:N'; [discriminate|].
      destruct (Str.skip_prefix "%" r'); [|discriminate].
      injection H as <-. rewrite (parse_float_decimal _ _ A B N'). eauto. }
  exists v. split; [exact P|]. split; [exact (parse_float_nonneg _ _ P)|].
  unfold pct_of. rewrite P. reflexivity.
Qed.

Lemma percentage_always_parses_witness :
  Re.search Re.done_at "[download]  45.3% of 3.45MiB" = Some "45.3"%string
  /\ exists v, parse_float "45.3" = Some v /\ 0 <= v /\ pct_of "45.3" = clamp v.
Proof.
  split; [reflexivity|].
  exact (percentage_always_parses "[download]  45.3% of 3.45MiB" "45.3"
           eq_refl).
Defined.

Lemma unit_at_known s u rest :
  Re.unit_at s = Some (u, rest) ->
  u = "KiB"%string \/ u = "MiB"%string \/ u = "GiB"%string.
Proof.
  unfold Re.unit_at.
  destruct (Str.skip_prefix "KiB" s); [intros [= <- _]; auto|].
  destruct (Str.skip_prefix "MiB" s); [intros [= <- _]; auto|].
  destruct (Str.skip_prefix "GiB" s); [intros [= <- _]; auto|].
  discriminate.
Qed.

Lemma number_unit_at_known s num u rest :
  Re.number_unit_at s = Some (num, u, rest) ->
  u = "KiB"%string \/ u = "MiB"%string \/ u = "GiB"%string.
Proof.
  unfold Re.number_unit_at.
  destruct (Str.span Re.digit_or_dot s) as [n r].
  destruct (is_empty n); [discriminate|].
  destruct (Str.span Str.is_space r) as [ws r'].
  destruct (Re.unit_at r') as [[u' rest']|] eqn:U; [|discriminate].
  intros [= ? ? ?]. subst. exact (unit_at_known _ _ _ U).
Qed.

(** X7. The unit found by the size pattern or by the speed pattern is one of
    the three keys of [SIZE_MULT]: the default multiplier of the lookup is
    never used. *)
Theorem matched_unit_is_a_key line num u :
  Re.search Re.size_at line = Some (num, u)
  \/ Re.search Re.speed_at line = Some (num, u) ->
  (u = "KiB"%string \/ u = "MiB"%string \/ u = "GiB"%string)
  /\ is_Some (SIZE_MULT !! u).
Proof.
  intros H.
  assert (u = "KiB"%string \/ u = "MiB"%string \/ u = "GiB"%string) as K.
  { destruct H as [H|H]; apply search_found in H as [t H].
    - unfold Re.size_at in H.
      destruct (Str.skip_prefix "of" t) as [r|]; [|discriminate].
      destruct (Str.span Str.is_space r) as [ws r'].
      destruct (is_empty ws); [discriminate|].
      destruct (Re.number_unit_at _) as [[[n u'] rest]|] eqn:N; [|discriminate].
      injection H as ? ?. subst. exact (number_unit_at_known _ _ _ _ N).
    - unfold Re.speed_at in H.
      destruct (Str.skip_prefix "at" t) as [r|]; [|discriminate].
      destruct (Str.span Str.is_space r) as [ws r'].
      destruct (is_empty ws); [discriminate|].
      destruct (Re.number_unit_at _) as [[[n u'] rest]|] eqn:N; [|discriminate].
      destruct (Str.skip_prefix "/s" rest); [|discriminate].
      injection H as ? ?. subst. exact (number_unit_at_known _ _ _ _ N). }
  split; [exact K|].
  destruct K as [-> | [-> | ->]]; vm_compute; eauto.
Qed.

Lemma matched_unit_is_a_key_witness :
  Re.search Re.speed_at "[download]  45.3% of 3.45MiB at 1.20MiB/s"
    = Some ("1.20", "MiB")%string
  /\ ("MiB" = "KiB" \/ "MiB" = "MiB" \/ "MiB" = "GiB")%string
  /\ is_Some (SIZE_MULT !! "MiB"%string).
Proof.
  split; [reflexivity|].
  exact (matched_unit_is_a_key "[download]  45.3% of 3.45MiB at 1.20MiB/s"
           "1.20" "MiB" (or_intror eq_refl)).
Defined.

(** ** The speed window and the fields of a progress call *)

Lemma push_sample_ok samples spd :
  (length samples <= 10)%nat -> Forall (fun x => 0 <= x) samples -> 0 <= spd ->
  (length (push_sample samples spd) <= 10)%nat
  /\ Forall (fun x => 0 <= x) (push_sample samples spd).
Proof.
  intros L F S1. unfold push_sample.
  assert (Forall (fun x => 0 <= x) (samples ++ [spd])%list) as F'.
  { apply Forall_app. split; [exact F|]. constructor; [exact S1|constructor]. }
  destruct (10 <? length (samples ++ [spd])%list)%nat eqn:T.
  - destruct (samples ++ [spd])%list as [|a rest] eqn:E; [discriminate|].
    assert (length (a :: rest) = S (length samples)) as Len
      by (rewrite <- E, length_app; simpl; lia).
    simpl in *. split; [lia|]. inversion F'; assumption.
  - apply Nat.ltb_ge in T. auto.
Qed.

Lemma Qsum_nonneg l : Forall (fun x => 0 <= x) l -> 0 <= Qsum l.
Proof.
  induction 1 as [|x l Hx Hl IH]; simpl; [apply Qle_refl|].
  unfold Qsum in *. simpl. lra.
Qed.

Lemma average_nonneg l : Forall (fun x => 0 <= x) l -> 0 <= average l.
Proof.
  intros F. unfold average. destruct l as [|a l].
  - unfold Qle. simpl. lia.
  - apply Qle_shift_div_l.
    + unfold Qlt. simpl. lia.
    + pose proof (Qsum_nonneg _ F). lra.
Qed.

Lemma smooth_ok samples speed :
  (length samples <= 10)%nat -> Forall (fun x => 0 <= x) samples ->
  (length (fst (smooth samples speed)) <= 10)%nat
  /\ Forall (fun x => 0 <= x) (fst (smooth samples speed))
  /\ 0 <= snd (smooth samples speed).
Proof.
  intros L F. unfold smooth.
  destruct speed as [m|]; [|simpl; repeat split; auto; apply Qle_refl].
  destruct (scaled m) as [spd|] eqn:S1;
    [|simpl; repeat split; auto; apply Qle_refl].
  destruct (push_sample_ok samples spd L F (scaled_nonneg _ _ S1)) as [L' F'].
  simpl. repeat split; auto. apply average_nonneg. exact F'.
Qed.

Lemma downloaded_in_range total pct :
  match total with Some t => 0 <= t | None => True end ->
  0 <= pct -> pct <= 100 ->
  0 <= downloaded_of total pct
  /\ match total with
     | Some t => downloaded_of total pct <= t
     | None => downloaded_of total pct == 0
     end.
Proof.
  intros T P1 P2. unfold downloaded_of.
  destruct total as [t|]; [|split; [apply Qle_refl|reflexivity]].
  destruct (truthy t); [|split; [apply Qle_refl|exact T]].
  pose proof (remaining_nonneg t pct T P1 P2) as R.
  assert (0 <= pct / 100) as H by (apply Qle_shift_div_l; lra).
  pose proof (Qmult_le_0_compat _ _ T H). split; lra.
Qed.

Lemma advance_fields pct ph : Forall fields_in_range (snd (advance pct ph)).
Proof.
  rewrite advance_cases.
  destruct ph; simpl;
    repeat (match goal with |- context [if ?b then _ else _] =>
              destruct b end); simpl; repeat constructor.
Qed.

Lemma process_line_fields song st line :
  total_ok st -> window_ok st ->
  total_ok (fst (process_line song st line))
  /\ window_ok (fst (process_line song st line))
  /\ Forall fields_in_range (snd (process_line song st line)).
Proof.
  intros T [WL WF].
  split; [exact (proj1 (process_line_eta song st line T))|].
  unfold process_line.
  destruct (Str.contains marker line).
  - split; [split; assumption|].
    constructor; [|repeat constructor].
    simpl. repeat split; try lra; apply Qle_refl.
  - set (total := match Re.search Re.size_at line with
                  | Some m =>
                      match scaled m with
                      | Some b => Some b
                      | None => total_bytes st
                      end
                  | None => total_bytes st
                  end).
    assert (match total with Some t => 0 <= t | None => True end) as T'.
    { subst total. destruct (Re.search Re.size_at line) as [m|]; [|exact T].
      destruct (scaled m) as [b|] eqn:S; [|exact T].
      exact (scaled_nonneg _ _ S). }
    destruct (Re.search Re.done_at line) as [text|];
      [|split; [split; assumption|constructor]].
    destruct (advance (pct_of text) (phase st)) as [ph stages] eqn:A.
    assert (Forall fields_in_range stages) as FS.
    { pose proof (advance_fields (pct_of text) (phase st)) as C.
      rewrite A in C. exact C. }
    destruct (smooth_ok (speed_samples st) (Re.search Re.speed_at line) WL WF)
      as (SL & SF & SA).
    destruct (smooth (speed_samples st) (Re.search Re.speed_at line))
      as [samples avg].
    simpl in SL, SF, SA. destruct (pct_of_range text) as [P1 P2].
    destruct (downloaded_in_range total (pct_of text) T' P1 P2) as [D1 D2].
    destruct (differs (pct_of text) (last_pct st)); simpl;
      (split; [split; assumption|]); [|exact FS].
    apply Forall_app. split; [exact FS|]. constructor; [|constructor].
    simpl. repeat split; assumption.
Qed.

Lemma initial_window_ok : window_ok initial.
Proof. split; [simpl; lia|constructor]. Qed.

Lemma fold_push_sample l : forall window,
  (length window <= 10)%nat ->
  fold_left push_sample l window
  = skipn (length (window ++ l)%list - 10) (window ++ l)%list.
Proof.
  induction l as [|x l IH]; intros window L.
  - simpl. rewrite app_nil_r. replace (length window - 10)%nat with 0%nat by lia.
    reflexivity.
  - cbn [fold_left]. unfold push_sample at 2.
    destruct (10 <? length (window ++ [x])%list)%nat eqn:T.
    + apply Nat.ltb_lt in T. rewrite length_app in T. simpl in T.
      destruct window as [|a w0]; [simpl in T; lia|].
      simpl in T, L.
      cbn [app tl]. rewrite IH by (rewrite length_app; simpl; lia).
      rewrite <- !app_assoc. cbn [app length]. rewrite !length_app.
      cbn [length].
      replace (length w0 + S (length l) - 10)%nat with (length l) by lia.
      replace (S (length w0 + S (length l)) - 10)%nat with (S (length l)) by lia.
      reflexivity.
    + apply Nat.ltb_ge in T. rewrite IH by exact T.
      rewrite <- !app_assoc. reflexivity.
Qed.

Lemma state_after_window song rs : forall st,
  total_ok st -> window_ok st -> window_ok (state_after song st rs).
Proof.
  induction rs as [|r rs IH]; intros st T W; [exact W|].
  simpl. destruct r as [line|]; [|apply IH; assumption].
  destruct (process_line_fields song st line T W) as (T1 & W1 & _).
  apply IH; assumption.
Qed.

(** X9. The speed window is the last ten samples: feeding the samples [l]
    one by one to an empty window leaves the last ten of them (all of them
    when there are fewer), and no state of a session holds more than ten
    samples or a negative one. *)
Theorem speed_window_keeps_last_ten song (l : list Q) rs :
  fold_left push_sample l [] = skipn (length l - 10) l
  /\ window_ok (state_after song initial rs).
Proof.
  split.
  - apply (fold_push_sample l []). simpl. lia.
  - apply state_after_window; [exact I|exact initial_window_ok].
Qed.

(** ** Stopping, success and the badge *)

Lemma read_loop_until_stop song stop k : forall rs turn st,
  (k <= length rs)%nat ->
  (forall i, (i < k)%nat -> stop (turn + i)%nat = false) ->
  stop (turn + k)%nat = true ->
  read_loop song (Some stop) turn st rs
  = (true, state_after song st (firstn k rs),
     calls_during song st (firstn k rs)).
Proof.
  unfold calls_during.
  induction k as [|k IH]; intros rs turn st L F T.
  - rewrite Nat.add_0_r in T. destruct rs; simpl; rewrite T; reflexivity.
  - destruct rs as [|r rs]; [simpl in L; lia|]. simpl in L.
    cbn [read_loop stop_requested].
    pose proof (F 0%nat ltac:(lia)) as F0. rewrite Nat.add_0_r in F0.
    rewrite F0. cbn [firstn steps state_after fold_left map concat].
    destruct (step song st r) as [st' evs] eqn:S1.
    rewrite (IH rs (S turn) st').
    + reflexivity.
    + lia.
    + intros i Hi. replace (S turn + i)%nat with (turn + S i)%nat by lia.
      apply F. lia.
    + replace (S turn + k)%nat with (turn + S k)%nat by lia. exact T.
Qed.

(** X10. When the stop check first answers true at the top of turn [k], the
    call returns failure after the calls of the first [k] reads: what the
    subprocess printed later is not processed, and no stage follows. *)
Theorem stop_ends_the_session song playlist_dir popen stop p k :
  popen (download_cmd song playlist_dir) = Started p ->
  (k <= length (output p))%nat ->
  (forall i, (i < k)%nat -> stop i = false) ->
  stop k = true ->
  download_song song playlist_dir popen (Some stop)
  = (false,
     (announce ++ [Stage "Downloading banner" "download"]
      ++ calls_during song initial (firstn k (output p)))%list).
Proof.
  intros P L F T. unfold download_song. rewrite P.
  rewrite (read_loop_until_stop song stop k (output p) 0 initial L F T).
  reflexivity.
Qed.

Lemma stop_ends_the_session_witness :
  download_song "x" "out" (fun _ => good_process)
    (Some (fun turn => (1 <? turn)%nat))
  = (false,
     (announce ++ [Stage "Downloading banner" "download"]
      ++ calls_during "x" initial
           (firstn 2 [ Line "[download]   1.0% of 3.00MiB at 1.00MiB/s";
                       Idle;
                       Line "[download]  50.0% of 3.00MiB at 2.00MiB/s";
                       Line "[download] 100% of 3.00MiB at 2.00MiB/s" ]))%list).
Proof.
  apply (stop_ends_the_session "x" "out" (fun _ => good_process)
           (fun turn => (1 <? turn)%nat)
           {| output := [ Line "[download]   1.0% of 3.00MiB at 1.00MiB/s";
                          Idle;
                          Line "[download]  50.0% of 3.00MiB at 2.00MiB/s";
                          Line "[download] 100% of 3.00MiB at 2.00MiB/s" ];
              how_ended := Exited 0 |} 2%nat).
  - reflexivity.
  - simpl. lia.
  - intros [|[|i]] H; [reflexivity|reflexivity|lia].
  - reflexivity.
Defined.

Lemma step_saw_progress song st r :
  saw_progress (fst (step song st r)) = saw_progress st || shows_progress r.
Proof.
  destruct r as [line|]; simpl; [|rewrite orb_false_r; reflexivity].
  unfold process_line.
  destruct (Str.contains marker line); simpl; [rewrite orb_true_r; reflexivity|].
  destruct (Re.search Re.done_at line) as [text|]; simpl.
  - destruct (advance (pct_of text) (phase st)) as [ph stages].
    destruct (smooth (speed_samples st) (Re.search Re.speed_at line))
      as [samples avg].
    destruct (differs (pct_of text) (last_pct st)); simpl;
      rewrite orb_true_r; reflexivity.
  - rewrite orb_false_r. reflexivity.
Qed.

Lemma state_after_saw_progress song rs : forall st,
  saw_progress (state_after song st rs)
  = saw_progress st || existsb shows_progress rs.
Proof.
  induction rs as [|r rs IH]; intros st; simpl.
  - rewrite orb_false_r. reflexivity.
  - rewrite IH, step_saw_progress, orb_assoc. reflexivity.
Qed.

Lemma existsb_firstn {A} (f : A -> bool) k l :
  existsb f (firstn k l) = true -> existsb f l = true.
Proof.
  revert l. induction k as [|k IH]; intros l; [discriminate|].
  destruct l as [|x l]; [discriminate|]. simpl.
  rewrite !orb_true_iff. intros [H|H]; auto.
Qed.

(** X11. [download_song] never reports success for a subprocess that showed
    no progress: a success means that the process was launched, that it
    exited with 0, and that one of its lines had a percentage or the
    marker. *)
Theorem success_needs_visible_progress song playlist_dir popen stop_check_cb :
  fst (download_song song playlist_dir popen stop_check_cb) = true ->
  exists p,
    popen (download_cmd song playlist_dir) = Started p
    /\ returncode (how_ended p) = Some 0%Z
    /\ existsb shows_progress (output p) = true.
Proof.
  unfold download_song.
  destruct (popen (download_cmd song playlist_dir)) as [msg|p];
    [discriminate|].
  destruct (read_loop_prefix song stop_check_cb (output p) 0 initial)
    as [k [_ E]].
  destruct (read_loop song stop_check_cb 0 initial (output p))
    as [[stopped st] evs].
  simpl in E. destruct stopped; [discriminate|].
  unfold conclude.
  destruct (returncode (how_ended p)) as [[|q|q]|] eqn:R;
    try discriminate.
  destruct (saw_progress st) eqn:S1; [|discriminate].
  intros _. exists p. split; [reflexivity|]. split; [exact R|].
  rewrite E, state_after_saw_progress in S1. simpl in S1.
  exact (existsb_firstn _ _ _ S1).
Qed.

Lemma success_needs_visible_progress_witness :
  fst (download_song "x" "out" (fun _ => good_process) None) = true
  /\ exists p,
       good_process = Started p
       /\ returncode (how_ended p) = Some 0%Z
       /\ existsb shows_progress (output p) = true.
Proof.
  split; [vm_compute; reflexivity|].
  apply (success_needs_visible_progress "x" "out" (fun _ => good_process) None).
  vm_compute. reflexivity.
Defined.

Lemma read_loop_never_stopped song stop rs : forall turn st,
  (forall t, stop_requested stop t = false) ->
  read_loop song stop turn st rs
  = (false, state_after song st rs, calls_during song st rs).
Proof.
  unfold calls_during.
  induction rs as [|r rs IH]; intros turn st N; simpl; rewrite N.
  - reflexivity.
  - destruct (step song st r) as [st' evs] eqn:S1.
    rewrite (IH _ _ N). reflexivity.
Qed.

Lemma stage_tags_app evs evs' :
  stage_tags (evs ++ evs') = (stage_tags evs ++ stage_tags evs')%list.
Proof. unfold stage_tags. apply flat_map_app. Qed.

Lemma badge_after_app badge evs evs' :
  badge_after badge (evs ++ evs') = badge_after (badge_after badge evs) evs'.
Proof. unfold badge_after. rewrite stage_tags_app. apply fold_left_app. Qed.

(** X12. When the call is not stopped, the badge it leaves tells the
    result: it reads Finished after a success and Error after a failure,
    whatever it read before. *)
Theorem badge_tells_the_result song playlist_dir popen stop_check_cb badge :
  (forall turn, stop_requested stop_check_cb turn = false) ->
  badge_after badge (snd (download_song song playlist_dir popen stop_check_cb))
  = if fst (download_song song playlist_dir popen stop_check_cb)
    then "Finished" else "Error".
Proof.
  intros N. unfold download_song.
  destruct (popen (download_cmd song playlist_dir)) as [msg|p].
  - cbn [fst snd]. rewrite badge_after_app. reflexivity.
  - rewrite (read_loop_never_stopped song stop_check_cb (output p) 0 initial N).
    unfold conclude.
    destruct (returncode (how_ended p)) as [[|q|q]|];
      try destruct (saw_progress _);
      cbn [fst snd]; rewrite !app_assoc, badge_after_app; reflexivity.
Qed.

Lemma badge_tells_the_result_witness :
  badge_after "Idle" (snd (download_song "x" "out" (fun _ => quiet_process) None))
  = if fst (download_song "x" "out" (fun _ => quiet_process) None)
    then "Finished" else "Error".
Proof.
  apply (badge_tells_the_result "x" "out" (fun _ => quiet_process) None "Idle").
  reflexivity.
Defined.

(** ** More on [App.run] *)

(** X13. A failure to resolve the playlist ends the run: its message is
    logged under the tag [error] when the window is open, and nothing else
    is done: no directory, no download. *)
Theorem failed_fetch_is_fatal e msg :
  get_playlist_info (tool e) = inl msg ->
  trace (snd (run e start_world))
  = if still_open e 0 then [Log msg "error"] else [].
Proof.
  intros G. unfold run, bind, ask. rewrite G.
  unfold log, bind, is_running, emit, ret. cbn [clock start_world].
  destruct (still_open e 0); reflexivity.
Qed.

Lemma failed_fetch_is_fatal_witness :
  let e := {| tool := ToolExit 1 EmptyString "ERROR: no such playlist " None;
              BASE_DIR := "F:/walkman"; closing := None; mkdir_error := None;
              popen := fun _ _ => good_process; stops := fun _ _ => false;
              listing := None |} in
  trace (snd (run e start_world)) = [Log "ERROR: no such playlist" "error"].
Proof.
  exact (failed_fetch_is_fatal
           {| tool := ToolExit 1 EmptyString "ERROR: no such playlist " None;
              BASE_DIR := "F:/walkman"; closing := None; mkdir_error := None;
              popen := fun _ _ => good_process; stops := fun _ _ => false;
              listing := None |}
           "ERROR: no such playlist" eq_refl).
Defined.

(** X14. When the playlist directory cannot be created the run ends after
    the attempt: the fault is logged under the tag [error] when the window
    is open, and [download_song] is never called. *)
Theorem failed_mkdir_is_fatal e playlist_name songs err :
  get_playlist_info (tool e) = inr (playlist_name, songs) ->
  songs <> [] ->
  still_open e 0 = true ->
  mkdir_error e = Some err ->
  trace (snd (run e start_world))
  = Mkdir (path_join (BASE_DIR e) playlist_name)
    :: (if still_open e 1
        then [Log ("Cannot create dir: " ++ err) "error"] else []).
Proof.
  intros G N O K. unfold run, bind, ask. rewrite G.
  unfold is_running at 1. cbn [clock start_world]. rewrite O. cbn [negb].
  destruct songs as [|s0 rest]; [congruence|].
  unfold emit. rewrite K.
  unfold log, bind, is_running, emit, ret. cbn [clock start_world tick push].
  destruct (still_open e 1); reflexivity.
Qed.

Lemma failed_mkdir_is_fatal_witness :
  let e := {| tool := tool sample_env; BASE_DIR := "F:/walkman";
              closing := None; mkdir_error := Some "read-only file system";
              popen := popen sample_env; stops := stops sample_env;
              listing := None |} in
  trace (snd (run e start_world))
  = [ Mkdir "F:/walkman/My List";
      Log "Cannot create dir: read-only file system" "error" ].
Proof.
  assert (["a"; "b"; "c"] <> @nil string) as N by discriminate.
  exact (failed_mkdir_is_fatal
           {| tool := tool sample_env; BASE_DIR := "F:/walkman";
              closing := None; mkdir_error := Some "read-only file system";
              popen := popen sample_env; stops := stops sample_env;
              listing := None |}
           "My List" ["a"; "b"; "c"] "read-only file system"
           eq_refl N eq_refl eq_refl).
Defined.









(** ** File names and song titles *)

Lemma length_append s t :
  String.length (s ++ t)%string = (String.length s + String.length t)%nat.
Proof.
  induction s as [|c s IH]; [reflexivity|].
  change (S (String.length (s ++ t)%string)
          = S (String.length s + String.length t)).
  rewrite IH. reflexivity.
Qed.

Lemma substring_prefix s t :
  substring 0 (String.length s) (s ++ t)%string = s.
Proof.
  induction s as [|c s IH].
  - destruct t; reflexivity.
  - change (String c (substring 0 (String.length s) (s ++ t)%string)
            = String c s).
    rewrite IH. reflexivity.
Qed.

Lemma substring_suffix s t n :
  substring (String.length s) n (s ++ t)%string = substring 0 n t.
Proof.
  induction s as [|c s IH]; [reflexivity|].
  change (substring (String.length s) n (s ++ t)%string = substring 0 n t).
  exact IH.
Qed.

Lemma last_dot_mp3 s : forall pos,
  last_dot (s ++ ".mp3")%string pos = Some (pos + String.length s)%nat.
Proof.
  induction s as [|c s IH]; intros pos.
  - simpl. rewrite Nat.add_0_r. reflexivity.
  - change (match last_dot (s ++ ".mp3")%string (S pos) with
            | Some i => Some i
            | None => if Ascii.eqb c dot then Some pos else None
            end = Some (pos + S (String.length s))%nat).
    rewrite IH. f_equal. lia.
Qed.

Lemma stem_of_mp3_name_lemma song :
  song <> EmptyString ->
  is_mp3 (song ++ ".mp3")%string = true
  /\ stem (song ++ ".mp3")%string = song.
Proof.
  intros N. split.
  - unfold is_mp3. rewrite length_append. cbn [String.length].
    replace (String.length song + 4 - 4)%nat with (String.length song) by lia.
    rewrite substring_suffix.
    replace (4 <=? String.length song + 4)%nat with true
      by (symmetry; apply Nat.leb_le; lia).
    reflexivity.
  - unfold stem. rewrite last_dot_mp3, length_append. cbn [String.length].
    cbn [Nat.add].
    assert (0 < String.length song)%nat as L
      by (destruct song; [congruence|simpl; lia]).
    replace (0 <? String.length song)%nat with true
      by (symmetry; apply Nat.ltb_lt; exact L).
    replace (String.length song <? String.length song + 4 - 1)%nat with true
      by (symmetry; apply Nat.ltb_lt; lia).
    apply substring_prefix.
Qed.

(** X16. The file name made of a title and the extension of the output
    template is matched by the rescan, and its stem is the title again, for
    every title that is not empty. *)
Theorem stem_of_mp3_name song :
  song <> EmptyString ->
  is_mp3 (song ++ ".mp3")%string = true
  /\ stem (song ++ ".mp3")%string = song.
Proof.
  intros N. destruct (stem_of_mp3_name_lemma song N) as [M S1].
  split; assumption.
Qed.

Lemma stem_of_mp3_name_witness :
  is_mp3 "Back in Black.mp3" = true
  /\ stem "Back in Black.mp3" = "Back in Black".
Proof.
  assert ("Back in Black" <> EmptyString) as N by discriminate.
  exact (stem_of_mp3_name "Back in Black" N).
Defined.

(** X17. A song whose file, named by its title and the extension mp3, is
    listed at the rescan is not among the missing songs. *)
Theorem listed_file_is_not_missing e songs song :
  song <> EmptyString ->
  In (song ++ ".mp3")%string (listed e) ->
  ~ In song (missing_songs songs (existing_files (listing e))).
Proof.
  intros N L. rewrite missing_songs_on_disk. intros H.
  apply filter_In in H as [_ H]. apply negb_true_iff in H.
  apply not_true_iff_false in H. apply H. clear H.
  unfold on_disk. apply existsb_exists. exists (song ++ ".mp3")%string.
  split; [exact L|].
  destruct (stem_of_mp3_name_lemma song N) as [M S1].
  rewrite M, S1. apply String.eqb_refl.
Qed.

Lemma listed_file_is_not_missing_witness :
  In "a.mp3" (listed sample_env)
  /\ ~ In "a" (missing_songs ["a"; "b"; "c"]
                 (existing_files (listing sample_env))).
Proof.
  assert ("a" <> EmptyString) as N by discriminate.
  assert (In ("a" ++ ".mp3")%string (listed sample_env)) as L
    by (left; reflexivity).
  split; [exact L|].
  exact (listed_file_is_not_missing sample_env ["a"; "b"; "c"] "a" N L).
Defined.

Lemma substring_nonempty i c s :
  (0 < i)%nat -> substring 0 i (String c s) <> EmptyString.
Proof. destruct i; [lia|]. discriminate. Qed.

Lemma stem_nonempty name : name <> EmptyString -> stem name <> EmptyString.
Proof.
  intros N. unfold stem.
  destruct (last_dot name 0) as [i|]; [|exact N].
  destruct (0 <? i)%nat eqn:P; simpl; [|exact N].
  destruct (i <? String.length name - 1)%nat; [|exact N].
  apply Nat.ltb_lt in P. destruct name as [|c s]; [congruence|].
  apply substring_nonempty. exact P.
Qed.

(** X18. A song whose cleaned title is empty is always among the missing
    songs, whatever the directory holds: no file name has an empty stem. *)
Theorem empty_title_is_always_missing e songs :
  In EmptyString songs ->
  In EmptyString (missing_songs songs (existing_files (listing e))).
Proof.
  intros H. rewrite missing_songs_on_disk. apply filter_In.
  split; [exact H|]. apply negb_true_iff, not_true_iff_false.
  unfold on_disk. intros X. apply existsb_exists in X as [name [_ X]].
  apply andb_true_iff in X as [M E]. apply String.eqb_eq in E.
  apply (stem_nonempty name); [|exact E].
  intros ->. discriminate.
Qed.

Lemma empty_title_is_always_missing_witness :
  song_titles [EDict (Some "###"); EDict (Some "a")] = [EmptyString; "a"]
  /\ In EmptyString
       (missing_songs [EmptyString; "a"] (existing_files (listing sample_env))).
Proof.
  split; [reflexivity|].
  apply (empty_title_is_always_missing sample_env [EmptyString; "a"]).
  left. reflexivity.
Defined.

(** ** [format_duration] *)

Lemma decimal_starts_with_digit n :
  exists c rest, decimal n = String c rest /\ Str.is_digit c = true.
Proof.
  unfold decimal, NilZero.string_of_uint.
  destruct (Nat.to_uint n); simpl; eauto.
Qed.

Lemma duration_fields_nonempty n : duration_fields n <> [].
Proof.
  unfold duration_fields.
  destruct (n / 3600 =? 0)%nat; [|discriminate].
  destruct ((n mod 3600) / 60 =? 0)%nat; [|discriminate].
  simpl. rewrite orb_true_r. discriminate.
Qed.

Lemma join_first sep c rest l :
  first_char (join sep (String c rest :: l)) = Some c.
Proof. destruct l; reflexivity. Qed.

Lemma formatted_fields_start_with_digit n :
  exists c,
    first_char (join " " (map (fun f => part (fst f) (snd f))
                              (duration_fields n))) = Some c
    /\ Str.is_digit c = true.
Proof.
  pose proof (duration_fields_nonempty n) as N.
  destruct (duration_fields n) as [|[k u] l]; [congruence|].
  cbn [map fst snd]. unfold part.
  destruct (decimal_starts_with_digit k) as (c & rest & E & D).
  rewrite E. exists c. split; [|exact D].
  change (String c rest ++ " " ++ u
          ++ (if (k =? 1)%nat then EmptyString else "s"))%string
    with (String c (rest ++ " " ++ u
                    ++ (if (k =? 1)%nat then EmptyString else "s"))%string).
  apply join_first.
Qed.

(** X19. The placeholder is returned exactly for an unknown duration and
    for one that is not positive; every other duration gives a text that
    starts with a digit. *)
Theorem format_duration_placeholder seconds :
  (format_duration seconds = EM_DASH
   <-> seconds = None \/ exists q, seconds = Some q /\ q <= 0)
  /\ (format_duration seconds = EM_DASH
      \/ exists c, first_char (format_duration seconds) = Some c
                   /\ Str.is_digit c = true).
Proof.
  destruct seconds as [q|]; simpl.
  - destruct (Qle_bool q 0) eqn:L.
    + split; [|left; reflexivity].
      split; [|reflexivity]. intros _. right. exists q.
      split; [reflexivity|]. apply Qle_bool_iff. exact L.
    + destruct (formatted_fields_start_with_digit (Z.to_nat (Qfloor q)))
        as (c & F & D).
      split; [|right; eauto]. split.
      * intros E. rewrite E in F. injection F as <-. discriminate.
      * intros [H|(q' & [= <-] & H)]; [discriminate|].
        apply Qle_bool_iff in H. congruence.
  - split; [|left; reflexivity]. split; auto.
Qed.

Lemma fields_arithmetic n :
  (n = 3600 * (n / 3600) + 60 * ((n mod 3600) / 60) + n mod 60
   /\ (n mod 3600) / 60 < 60 /\ n mod 60 < 60)%nat.
Proof.
  pose proof (Nat.div_mod_eq n 3600) as H1.
  pose proof (Nat.div_mod_eq (n mod 3600) 60) as H2.
  pose proof (Nat.mod_upper_bound n 3600 ltac:(lia)) as H3.
  pose proof (Nat.mod_upper_bound n 60 ltac:(lia)) as H4.
  assert ((n mod 3600) mod 60 = n mod 60)%nat as H5.
  { change 3600%nat with (60 * 60)%nat.
    rewrite Nat.Div0.mod_mul_r, (Nat.mul_comm 60 ((n / 60) mod 60)).
    rewrite Nat.Div0.mod_add. apply Nat.Div0.mod_mod. }
  assert ((n mod 3600) / 60 < 60)%nat as H6
    by (apply Nat.Div0.div_lt_upper_bound; lia).
  lia.
Qed.

(** X20. The numbers printed for a duration are its breakdown: hours,
    minutes and seconds add up to the whole seconds, minutes and seconds
    are below 60, a number that is 0 is left out, and a duration of 0
    seconds is printed as 0 seconds alone. *)
Theorem duration_fields_break_down n :
  fields_total (duration_fields n) = n
  /\ Forall (fun f => snd f = "hr" \/ (fst f < 60)%nat) (duration_fields n)
  /\ match n with
     | O => duration_fields n = [(0%nat, "sec")]
     | S _ => Forall (fun f => fst f <> 0%nat) (duration_fields n)
     end.
Proof.
  destruct (fields_arithmetic n) as (E & M & S1).
  unfold duration_fields.
  set (hrs := (n / 3600)%nat) in *.
  set (mins := ((n mod 3600) / 60)%nat) in *.
  set (secs := (n mod 60)%nat) in *.
  clearbody hrs mins secs.
  assert (unit_seconds "hr" = 3600%nat) as U1 by reflexivity.
  assert (unit_seconds "min" = 60%nat) as U2 by reflexivity.
  assert (unit_seconds "sec" = 1%nat) as U3 by reflexivity.
  destruct (Nat.eqb_spec hrs 0) as [H|H];
    destruct (Nat.eqb_spec mins 0) as [Mi|Mi];
    destruct (Nat.eqb_spec secs 0) as [Se|Se];
    cbn [app length Nat.eqb negb orb].
  all: split;
    [unfold fields_total; cbn [fold_right fst snd]; rewrite ?U1, ?U2, ?U3; lia|].
  all: split;
    [repeat (constructor; [cbn [fst snd]; first [left; reflexivity|right; lia]|]);
     constructor|].
  all: destruct n as [|n']; [first [subst; reflexivity|exfalso; lia]|].
  all: repeat (constructor; [cbn [fst snd]; lia|]); constructor.
Qed.

(** ** The phase at the end of a session *)

Lemma phase_after song rs : forall st,
  phase (state_after song st rs) = phase_reached (phase st) (map read_pct rs).
Proof.
  induction rs as [|r rs IH]; intros st.
  - simpl. destruct (phase st); reflexivity.
  - cbn [state_after fold_left map existsb]. fold (state_after song).
    change (fold_left (fun s r0 => fst (step song s r0)) rs (fst (step song st r)))
      with (state_after song (fst (step song st r)) rs).
    rewrite IH. pose proof (step_phase song st r) as S1.
    destruct (step song st r) as [st' evs]. cbn [fst].
    unfold phase_reached. cbn [existsb].
    destruct (read_pct r) as [p|].
    + destruct S1 as (-> & _). rewrite advance_cases. cbn [exceeds].
      destruct (phase st); cbn [fst].
      * destruct (Qgtb p 98) eqn:B; cbn [fst orb].
        -- reflexivity.
        -- destruct (Qgtb p 2); cbn [fst orb]; reflexivity.
      * destruct (Qgtb p 98); reflexivity.
      * reflexivity.
    + destruct S1 as (-> & _). reflexivity.
Qed.

(** X22. The phase in which a session ends is told by the percentages it
    read: the merge phase when one of them exceeded 98, else the song phase
    when one of them exceeded 2, else the banner phase. *)
Theorem final_phase_from_percentages song rs :
  phase (state_after song initial rs)
  = if existsb (exceeds 98) (map read_pct rs) then Merge
    else if existsb (exceeds 2) (map read_pct rs) then Song
    else Banner.
Proof.
  rewrite phase_after. reflexivity.
Qed.
